(** * super_simple.py: the chunker, the markdown generator and the
      Open WebUI collection builder

    A shallow embedding of the three computations of [super_simple.py]
    that carry design content:

    - the character chunking loop of [process_pdfs] (lines 288-304),
    - [generate_markdown] (lines 170-212),
    - the grouping and numbering part of [prepare_openwebui_collection]
      (lines 96-140),

    and of the code around them: the text put together from the pages
    (lines 265-267), the loop of [process_pdfs] over the PDF files with
    [is_pdf_processed] (lines 69-72 and 236-375), and [main] with the
    outcome of its [parse_args].

    Python values are modelled as the interpreter has them: a [str] is a
    sequence of Unicode code points, an [int] is an unbounded integer, a
    [dict] keeps its keys in insertion order. *)

From Stdlib Require Import String Ascii DecimalString.
From Stdlib Require Import ZArith NArith List Bool Lia Permutation.
Import ListNotations.

Local Open Scope Z_scope.

(** ** The pieces of the Python runtime the script relies on *)

Module Py.

(** A character is a Unicode code point; a [str] is a sequence of them,
    so that [len] counts characters and not bytes. *)
Definition char : Type := N.
Definition str : Type := list char.

(** An ASCII literal of the script, as a [str]. *)
Definition lit (s : String.string) : str :=
  map Ascii.N_of_ascii (String.list_ascii_of_string s).

Definition nl : char := 10%N.
Definition space : char := 32%N.
Definition colon : char := 58%N.
Definition dot : char := 46%N.
(** U+2022 BULLET *)
Definition bullet : char := 8226%N.

Definition str_eqb (a b : str) : bool :=
  if list_eq_dec N.eq_dec a b then true else false.

(** [len(x)] as a Python int. *)
Definition len {A : Type} (l : list A) : Z := Z.of_nat (length l).

Inductive exn : Type :=
| ValueError.

Inductive result (A : Type) : Type :=
| Ok (a : A)
| Raise (e : exn).
Arguments Ok {A} a.
Arguments Raise {A} e.

(** The number of elements of [range(start, stop, step)] for a step that
    is not zero (CPython's [compute_range_length]). *)
Definition range_length (start stop step : Z) : Z :=
  let lo := if 0 <? step then start else stop in
  let hi := if 0 <? step then stop else start in
  let st := if 0 <? step then step else - step in
  if hi <=? lo then 0 else (hi - lo - 1) / st + 1.

(** [range(start, stop, step)]: [ValueError] on a zero step. *)
Definition range (start stop step : Z) : result (list Z) :=
  if step =? 0 then Raise ValueError
  else Ok (map (fun k => start + Z.of_nat k * step)
               (seq 0 (Z.to_nat (range_length start stop step)))).

(** A slice bound clipped to [0 .. n], negative bounds counting from the
    end ([PySlice_AdjustIndices] with step 1). *)
Definition slice_index (n i : Z) : Z :=
  if i <? 0 then Z.max 0 (i + n) else Z.min i n.

(** [s[i:j]] *)
Definition slice {A : Type} (s : list A) (i j : Z) : list A :=
  let a := slice_index (len s) i in
  let b := slice_index (len s) j in
  firstn (Z.to_nat (b - a)) (skipn (Z.to_nat a) s).

(** [s.startswith(prefix)] *)
Fixpoint startswith (s prefix : str) {struct prefix} : bool :=
  match prefix with
  | [] => true
  | p :: prefix' =>
      match s with
      | [] => false
      | c :: s' => N.eqb p c && startswith s' prefix'
      end
  end.

(** [s.startswith((p1, p2, ...))] *)
Definition startswith_any (s : str) (prefixes : list str) : bool :=
  existsb (startswith s) prefixes.

(** [s.endswith(suffix)] *)
Definition endswith (s suffix : str) : bool :=
  startswith (rev s) (rev suffix).

(** [s.split(sep)] for a separator that is not empty: the occurrences of
    [sep] are found left to right and do not overlap. [cur] is the piece
    being read and [skip] the number of characters of a separator just
    matched that are still to be passed over. *)
Fixpoint split_from (sep cur : str) (skip : nat) (s : str) : list str :=
  match s with
  | [] => [cur]
  | c :: s' =>
      match skip with
      | S k => split_from sep cur k s'
      | O =>
          if startswith s sep
          then cur :: split_from sep [] (length sep - 1) s'
          else split_from sep (cur ++ [c]) 0 s'
      end
  end.

Definition split (s sep : str) : list str := split_from sep [] 0 s.

(** [sep.join(parts)] *)
Fixpoint join (sep : str) (parts : list str) : str :=
  match parts with
  | [] => []
  | [p] => p
  | p :: rest => p ++ sep ++ join sep rest
  end.

(** [Py_UNICODE_ISSPACE]: the code points [str.strip()] removes. *)
Definition isspace (c : char) : bool :=
  ((9 <=? c) && (c <=? 13) || (28 <=? c) && (c <=? 32)
   || (c =? 133) || (c =? 160) || (c =? 5760)
   || (8192 <=? c) && (c <=? 8202)
   || (c =? 8232) || (c =? 8233) || (c =? 8239) || (c =? 8287)
   || (c =? 12288))%N.

Fixpoint lstrip (s : str) : str :=
  match s with
  | [] => []
  | c :: s' => if isspace c then lstrip s' else s
  end.

(** [s.strip()] *)
Definition strip (s : str) : str := rev (lstrip (rev (lstrip s))).

(** [s.isupper()], over the case tables of the Unicode database
    ([Py_UNICODE_ISUPPER], [Py_UNICODE_ISLOWER], [Py_UNICODE_ISTITLE]):
    no lower-case or title-case character, and an upper-case one. *)
Definition isupper (ch_isupper ch_islower ch_istitle : char -> bool) (s : str) : bool :=
  forallb (fun ch => negb (ch_islower ch || ch_istitle ch)) s
  && existsb ch_isupper s.

(** [enumerate(l)] *)
Definition enumerate {A : Type} (l : list A) : list (Z * A) :=
  combine (map Z.of_nat (seq 0 (length l))) l.

(** [str(n)] for an int. *)
Definition str_of_int (n : Z) : str := lit (DecimalString.NilZero.string_of_int (Z.to_int n)).

End Py.

Import Py.

(** ** The chunks *)

Record Metadata : Type := mkMetadata {
  source : str;
  chunk_index : Z;
  total_chunks : Z
}.

Record Chunk : Type := mkChunk {
  text : str;
  metadata : Metadata
}.

(** ** The chunking loop of [process_pdfs]

    [chunk_size] and [overlap] are locals of [process_pdfs], bound to
    1000 and 100 just before the loop; the loop is embedded with both as
    arguments, next to the two other values it reads, [text] and
    [pdf_file.name]. *)

Module ProcessPdfs.

Definition chunk_size : Z := 1000.
Definition overlap : Z := 100.

Section Chunking.

Variables (text_ pdf_file_name : str) (chunk_size_ overlap_ : Z).

(** One iteration, lines 295-304: the slice, and the append when the
    slice is not empty. *)
Definition loop_body (chunks : list Chunk) (i : Z) : list Chunk :=
  let chunk := slice text_ i (i + chunk_size_) in
  match chunk with
  | [] => chunks
  | _ :: _ =>
      chunks ++
      [ {| text := chunk;
           metadata := {| source := pdf_file_name;
                          chunk_index := len chunks;
                          total_chunks :=
                            len text_ / (chunk_size_ - overlap_) + 1 |} |} ]
  end.

(** Lines 289-304: [chunks] after the loop, or the exception of
    [range]. *)
Definition chunks : result (list Chunk) :=
  match range 0 (len text_) (chunk_size_ - overlap_) with
  | Raise e => Raise e
  | Ok offsets => Ok (fold_left loop_body offsets [])
  end.

(** The same loop as a relation between the offsets still to visit, the
    list built so far and the list at the end. *)
Inductive loop : list Z -> list Chunk -> list Chunk -> Prop :=
| loop_end (acc : list Chunk) : loop [] acc acc
| loop_empty (i : Z) (rest : list Z) (acc out : list Chunk) :
    slice text_ i (i + chunk_size_) = [] ->
    loop rest acc out ->
    loop (i :: rest) acc out
| loop_append (i : Z) (rest : list Z) (acc out : list Chunk) :
    slice text_ i (i + chunk_size_) <> [] ->
    loop rest
      (acc ++
       [ {| text := slice text_ i (i + chunk_size_);
            metadata := {| source := pdf_file_name;
                           chunk_index := len acc;
                           total_chunks :=
                             len text_ / (chunk_size_ - overlap_) + 1 |} |} ])
      out ->
    loop (i :: rest) acc out.

(** A run of lines 289-304 and its outcome. *)
Inductive run : result (list Chunk) -> Prop :=
| run_raise (e : exn) :
    range 0 (len text_) (chunk_size_ - overlap_) = Raise e ->
    run (Raise e)
| run_chunks (offsets : list Z) (out : list Chunk) :
    range 0 (len text_) (chunk_size_ - overlap_) = Ok offsets ->
    loop offsets [] out ->
    run (Ok out).

End Chunking.

(** The loop as [process_pdfs] runs it, with the two constants. *)
Definition chunks_of_text (text_ pdf_file_name : str) : result (list Chunk) :=
  chunks text_ pdf_file_name chunk_size overlap.

End ProcessPdfs.

(** ** [generate_markdown] *)

Section GenerateMarkdown.

(** The case tables of the interpreter's Unicode database. *)
Variables ch_isupper ch_islower ch_istitle : char -> bool.

(** Lines 173-181: the header with the metadata. *)
Definition header (title : str) (page_count : Z) (pdf_filename processed_date : str) : str :=
  lit "# " ++ title ++ [nl; nl]
  ++ lit "**Source**: " ++ pdf_filename ++ [nl]
  ++ lit "**Pages**: " ++ str_of_int page_count ++ [nl]
  ++ lit "**Processed**: " ++ processed_date ++ [nl; nl]
  ++ lit "---" ++ [nl; nl].

(** Line 185 *)
Definition paragraphs (text_ : str) : list str :=
  map strip
    (filter (fun p => match strip p with [] => false | _ :: _ => true end)
       (split text_ [nl; nl])).

(** The tuple of line 203. *)
Definition list_markers : list str :=
  [ [bullet]; lit "-"; lit "*"; lit "1."; lit "2." ].

(** Lines 190-210: one iteration of the loop over the paragraphs, from
    [markdown] before it to [markdown] after it. *)
Definition paragraph_body (markdown paragraph : str) : str :=
  let lines := split paragraph [nl] in
  if (len lines =? 1) && (len paragraph <? 100) then
    if isupper ch_isupper ch_islower ch_istitle paragraph
       || endswith paragraph [colon] || endswith paragraph [dot]
    then
      if len paragraph <? 50
      then markdown ++ (lit "## " ++ paragraph ++ [nl; nl])
      else markdown ++ (lit "### " ++ paragraph ++ [nl; nl])
    else markdown ++ (paragraph ++ [nl; nl])
  else
    if existsb (fun line => startswith_any (strip line) list_markers) lines
    then fold_left (fun md line => md ++ (line ++ [nl])) lines markdown ++ [nl]
    else markdown ++ (join [space] lines ++ [nl; nl]).

Definition generate_markdown
  (text_ title : str) (page_count : Z) (pdf_filename processed_date : str) : str :=
  let markdown := header title page_count pdf_filename processed_date in
  fold_left paragraph_body (paragraphs text_) markdown.

End GenerateMarkdown.

(** The case tables restricted to ASCII, to run the generator on ASCII
    text. *)
Definition ascii_isupper (c : char) : bool := ((65 <=? c) && (c <=? 90))%N.
Definition ascii_islower (c : char) : bool := ((97 <=? c) && (c <=? 122))%N.
Definition ascii_istitle (c : char) : bool := false.

(** ** [prepare_openwebui_collection] *)

Module ContentChunk.
Record t : Type := mk {
  id : str;
  doc_id : str;
  content : str;
  metadata : Metadata
}.
End ContentChunk.

Module Document.
Record t : Type := mk {
  id : str;
  url : str;
  title : str;
  content_chunks : list ContentChunk.t
}.
End Document.

Record Collection : Type := mkCollection {
  name : str;
  documents : list Document.t
}.

(** A [dict] with [str] keys: the items in insertion order, each key
    once. *)
Module Dict.

Definition t (V : Type) : Type := list (str * V).

(** [k in d] *)
Definition contains {V : Type} (d : t V) (k : str) : bool :=
  existsb (fun kv => str_eqb (fst kv) k) d.

(** [d[k] = v]: in place for a key that is there, at the end for a new
    one. *)
Fixpoint setitem {V : Type} (d : t V) (k : str) (v : V) : t V :=
  match d with
  | [] => [(k, v)]
  | (k', v') :: d' =>
      if str_eqb k' k then (k', v) :: d' else (k', v') :: setitem d' k v
  end.

(** [d[k].append(x)] for a key that is there. *)
Fixpoint append_at {A : Type} (d : t (list A)) (k : str) (x : A) : t (list A) :=
  match d with
  | [] => []
  | (k', v') :: d' =>
      if str_eqb k' k then (k', v' ++ [x]) :: d' else (k', v') :: append_at d' k x
  end.

End Dict.

Section PrepareOpenwebuiCollection.

(** [uuid.uuid4()] draws from the random source of the operating system:
    [entropy] is the state of that source and [uuid4] the [str] of the
    UUID drawn, with the state after the draw. *)
Variable entropy : Type.
Variable uuid4 : entropy -> str * entropy.

Definition M (A : Type) : Type := entropy -> A * entropy.
Definition ret {A : Type} (a : A) : M A := fun e => (a, e).
Definition bind {A B : Type} (m : M A) (k : A -> M B) : M B :=
  fun e => let (a, e') := m e in k a e'.

Notation "x <- m ;; k" := (bind m (fun x => k))
  (at level 61, m at next level, right associativity).

(** A [for] loop whose body updates [acc] and may draw UUIDs. *)
Fixpoint for_each {A S : Type} (body : S -> A -> M S) (l : list A) (acc : S) : M S :=
  match l with
  | [] => ret acc
  | x :: l' => acc' <- body acc x ;; for_each body l' acc'
  end.

(** Lines 84-94: a chunk file that does not load ([None]) is reported
    and passed over. *)
Definition load_all (chunk_files : list (option (list Chunk))) : list Chunk :=
  fold_left
    (fun all_chunks f =>
       match f with
       | Some chunks => all_chunks ++ chunks
       | None => all_chunks
       end)
    chunk_files [].

(** Lines 104-108 *)
Definition group_body (docs_by_source : Dict.t (list Chunk)) (chunk : Chunk)
  : Dict.t (list Chunk) :=
  let source_ := source (metadata chunk) in
  let docs_by_source :=
    if negb (Dict.contains docs_by_source source_)
    then Dict.setitem docs_by_source source_ []
    else docs_by_source in
  Dict.append_at docs_by_source source_ chunk.

Definition group_by_source (all_chunks : list Chunk) : Dict.t (list Chunk) :=
  fold_left group_body all_chunks [].

(** Lines 127-138 *)
Definition content_chunk_body (doc_id source_ : str) (doc_chunks : list Chunk)
  (content_chunks : list ContentChunk.t) (ic : Z * Chunk)
  : M (list ContentChunk.t) :=
  let (i, chunk) := ic in
  chunk_id <- uuid4 ;;
  ret (content_chunks ++
       [ {| ContentChunk.id := chunk_id;
            ContentChunk.doc_id := doc_id;
            ContentChunk.content := text chunk;
            ContentChunk.metadata :=
              {| source := source_;
                 chunk_index := i;
                 total_chunks := len doc_chunks |} |} ]).

(** Lines 117-140 *)
Definition document_body (documents_ : list Document.t) (item : str * list Chunk)
  : M (list Document.t) :=
  let (source_, doc_chunks) := item in
  doc_id <- uuid4 ;;
  content_chunks <-
    for_each (content_chunk_body doc_id source_ doc_chunks) (enumerate doc_chunks) [] ;;
  ret (documents_ ++
       [ {| Document.id := doc_id;
            Document.url := [];
            Document.title := source_;
            Document.content_chunks := content_chunks |} ]).

(** Lines 84-144: the collection written to [knowledge_collection.json],
    or [None] when the function returns at line 98 and writes nothing. *)
Definition prepare_openwebui_collection
  (chunk_files : list (option (list Chunk))) (collection_name : str)
  : M (option Collection) :=
  let all_chunks := load_all chunk_files in
  match all_chunks with
  | [] => ret None
  | _ :: _ =>
      let docs_by_source := group_by_source all_chunks in
      documents_ <- for_each document_body docs_by_source [] ;;
      ret (Some {| name := collection_name; documents := documents_ |})
  end.

End PrepareOpenwebuiCollection.

(** A counter as the random source, to run the builder. *)
Definition counter_uuid4 (n : nat) : str * nat :=
  (lit "uuid-" ++ str_of_int (Z.of_nat n), S n).

(** ** Definitions used to state the properties *)

(** The chunk appended at the [k]-th offset of the range. *)
Definition chunk_at (T s : str) (cs ov : Z) (k : nat) : Chunk :=
  let i := 0 + Z.of_nat k * (cs - ov) in
  {| text := slice T i (i + cs);
     metadata := {| source := s;
                    chunk_index := Z.of_nat k;
                    total_chunks := len T / (cs - ov) + 1 |} |}.

(** A line of a list, as line 203 tests it. *)
Definition is_list_line (line : str) : Prop :=
  startswith (strip line) [bullet] = true
  \/ startswith (strip line) (lit "-") = true
  \/ startswith (strip line) (lit "*") = true
  \/ startswith (strip line) (lit "1.") = true
  \/ startswith (strip line) (lit "2.") = true.

Definition source_of (c : Chunk) : str := source (metadata c).

(** The distinct sources, in the order in which each is first seen. *)
Definition distinct_sources (sources : list str) : list str :=
  fold_left
    (fun seen s => if existsb (fun s' => str_eqb s' s) seen then seen else seen ++ [s])
    sources [].

(** The chunks of one source, in their input order. *)
Definition chunks_of_source (s : str) (all_chunks : list Chunk) : list Chunk :=
  filter (fun c => str_eqb (source_of c) s) all_chunks.

(** The documents of the collection written, none when nothing is
    written. *)
Definition documents_written (written : option Collection) : list Document.t :=
  match written with
  | Some collection => documents collection
  | None => []
  end.

(** A chunk with the [chunk_index] and [total_chunks] it was stored with
    blanked. *)
Definition blank_counts (c : Chunk) : Chunk :=
  {| text := text c;
     metadata := {| source := source_of c; chunk_index := 0; total_chunks := 0 |} |}.

Definition blank_file : option (list Chunk) -> option (list Chunk) :=
  option_map (map blank_counts).

(** What line 129 appends for the [i]-th chunk of a document. *)
Definition content_chunk_of (doc_id source_ : str) (total : Z)
  (ic : Z * Chunk) (cc : ContentChunk.t) : Prop :=
  ContentChunk.doc_id cc = doc_id /\
  ContentChunk.content cc = text (snd ic) /\
  ContentChunk.metadata cc
  = {| source := source_; chunk_index := fst ic; total_chunks := total |}.

(** What line 140 appends for a source and its chunks. *)
Definition document_of (item : str * list Chunk) (d : Document.t) : Prop :=
  Document.title d = fst item /\
  Document.url d = [] /\
  Forall2 (content_chunk_of (Document.id d) (fst item) (len (snd item)))
    (enumerate (snd item)) (Document.content_chunks d).

(** ** Sample inputs *)

Definition ab : str := lit "ab".
Definition introduction : str := lit "INTRODUCTION".
Definition two_items : str := lit "- item one" ++ [nl] ++ lit "- item two".
Definition s_pdf : str := lit "s".

(** Two chunk files that share the source [a.pdf], around a file that
    does not load. *)
Definition two_files : list (option (list Chunk)) :=
  [ Some [ {| text := lit "a1";
              metadata := {| source := lit "a.pdf"; chunk_index := 5; total_chunks := 7 |} |};
           {| text := lit "b1";
              metadata := {| source := lit "b.pdf"; chunk_index := 0; total_chunks := 1 |} |} ];
    None;
    Some [ {| text := lit "a2";
              metadata := {| source := lit "a.pdf"; chunk_index := 0; total_chunks := 1 |} |} ] ].

(** ** Further definitions used to state properties *)

(** [sub] occurs in [s] ([sub in s]). *)
Definition occurs (sub s : str) : Prop :=
  exists pre post, s = pre ++ sub ++ post.

(** All the characters of [s] are white space. *)
Definition blank (s : str) : Prop := forallb isspace s = true.

(** No separator starts in the piece being read. *)
Definition piece_free (sep cur s : str) : Prop :=
  forall i, (i < length cur)%nat -> startswith (skipn i (cur ++ s)) sep = false.

(** A newline turned into a space, any other character kept. *)
Definition newline_to_space (c : char) : char :=
  if (c =? nl)%N then space else c.

(** The ids of a collection in the order in which the builder assigns
    them: the id of a document, then the ids of its content chunks. *)
Definition collection_ids (docs : list Document.t) : list str :=
  concat
    (map (fun d => Document.id d :: map ContentChunk.id (Document.content_chunks d)) docs).

(** [n] successive calls of [uuid4]: the values drawn and the state of
    the source after them. *)
Fixpoint draws {entropy : Type} (uuid4 : entropy -> str * entropy) (n : nat) (st : entropy)
  : list str * entropy :=
  match n with
  | O => ([], st)
  | S n' =>
      let (u, st1) := uuid4 st in
      let (us, st2) := draws uuid4 n' st1 in
      (u :: us, st2)
  end.

(** The number of UUIDs drawn for the items of the dict: one per
    document and one per chunk. *)
Definition draw_count (items : Dict.t (list Chunk)) : nat :=
  fold_right (fun item n => (S (length (snd item)) + n)%nat) 0%nat items.

(** ** The text of the pages (lines 265-267 of [process_pdfs]) *)

(** [text] after the loop over [reader.pages], from the [extract_text()]
    of each page. *)
Definition pages_text (pages : list str) : str :=
  fold_left (fun text_ page => text_ ++ (page ++ [nl; nl])) pages [].

(** ** The loop over the PDF files (lines 236-375 of [process_pdfs]),
       [is_pdf_processed] and [main] *)

(** A path of [pdfs_dir.glob("*.pdf")]: its [name] and its [stem]. *)
Module PdfFile.
Record t : Type := mk {
  name : str;
  stem : str
}.
End PdfFile.

(** The chunks directory, as the names of the files in it. *)
Definition directory : Type := list str.

Definition chunk_file_name (pdf_name : str) : str := pdf_name ++ lit "_chunks.json".

(** Lines 69-72: [chunk_file.exists()] *)
Definition is_pdf_processed (pdf_name : str) (chunks_dir : directory) : bool :=
  existsb (fun f => str_eqb f (chunk_file_name pdf_name)) chunks_dir.

(** [open(path, "w")]: the file is there afterwards. *)
Definition create (f : str) (d : directory) : directory :=
  if existsb (fun f' => str_eqb f' f) d then d else d ++ [f].

(** [file_info['status']] *)
Inductive status : Type :=
| Skipped
| Processed
| Error.

(** How the [try] block of lines 258-335 ends: at line 330, or in the
    handler after an exception raised before the chunk file is opened
    (line 307) or after. *)
Inductive attempt : Type :=
| completes
| raises_before_chunks
| raises_after_chunks.

(** What the loop does not decide itself: whether [get_file_info]
    (line 246) and [get_processed_info] (line 255) return or raise, both
    outside the [try], how the [try] block ends for a PDF, and whether
    the call of [prepare_openwebui_collection] returns. *)
Record Environment : Type := mkEnvironment {
  file_info_returns : PdfFile.t -> bool;
  processed_info_returns : PdfFile.t -> bool;
  try_block : PdfFile.t -> attempt;
  prepare_returns : bool
}.

Record Progress : Type := mkProgress {
  chunks_dir : directory;
  processed_count : Z;
  skipped_count : Z;
  file_details : list (str * status)
}.

(** Lines 246-337: one PDF; [None] when an exception leaves the
    function. *)
Definition pdf_body (env : Environment) (force_reprocess : bool)
  (p : Progress) (pdf_file : PdfFile.t) : option Progress :=
  if negb (file_info_returns env pdf_file) then None
  else
    let name_ := PdfFile.stem pdf_file in
    if negb force_reprocess && is_pdf_processed name_ (chunks_dir p) then
      if processed_info_returns env pdf_file then
        Some {| chunks_dir := chunks_dir p;
                processed_count := processed_count p;
                skipped_count := skipped_count p + 1;
                file_details := file_details p ++ [(PdfFile.name pdf_file, Skipped)] |}
      else None
    else
      match try_block env pdf_file with
      | completes =>
          Some {| chunks_dir := create (chunk_file_name name_) (chunks_dir p);
                  processed_count := processed_count p + 1;
                  skipped_count := skipped_count p;
                  file_details := file_details p ++ [(PdfFile.name pdf_file, Processed)] |}
      | raises_before_chunks =>
          Some {| chunks_dir := chunks_dir p;
                  processed_count := processed_count p;
                  skipped_count := skipped_count p;
                  file_details := file_details p ++ [(PdfFile.name pdf_file, Error)] |}
      | raises_after_chunks =>
          Some {| chunks_dir := create (chunk_file_name name_) (chunks_dir p);
                  processed_count := processed_count p;
                  skipped_count := skipped_count p;
                  file_details := file_details p ++ [(PdfFile.name pdf_file, Error)] |}
      end.

(** Lines 245-337: the loop. *)
Fixpoint pdf_loop (env : Environment) (force_reprocess : bool)
  (pdf_files : list PdfFile.t) (p : Progress) : option Progress :=
  match pdf_files with
  | [] => Some p
  | pdf_file :: rest =>
      match pdf_body env force_reprocess p pdf_file with
      | None => None
      | Some p' => pdf_loop env force_reprocess rest p'
      end
  end.

Record Outcome : Type := mkOutcome {
  returned : bool;
  collection_prepared : bool;
  progress : Progress
}.

(** Lines 236-375, from the directory listing on: [None] when an
    exception leaves the function. *)
Definition process_pdfs (env : Environment) (force_reprocess skip_openwebui : bool)
  (pdf_files : list PdfFile.t) (chunks_dir_ : directory) : option Outcome :=
  match pdf_loop env force_reprocess pdf_files
          {| chunks_dir := chunks_dir_;
             processed_count := 0;
             skipped_count := 0;
             file_details := [] |} with
  | None => None
  | Some p =>
      let prepare := negb skip_openwebui && ((0 <? processed_count p) || force_reprocess) in
      if prepare && negb (prepare_returns env) then None
      else
        Some {| returned := (0 <? processed_count p) || (0 <? skipped_count p);
                collection_prepared := prepare;
                progress := p |}
  end.

(** What [parser.parse_args()] (line 381) makes of the command line,
    with the two [store_true] arguments of lines 379-380: it returns the
    two flags, or it ends the process itself, with status 0 after
    printing the help ([-h], [--help]) and with status 2 on a command
    line it does not accept. *)
Inductive parse_args : Type :=
| Namespace (force skip_openwebui : bool)
| HelpPrinted
| ArgumentError.

(** Lines 377-391: the exit status of the process; [process_pdfs] is
    called only when [parse_args] returns; an exception that leaves
    [process_pdfs] ends the interpreter with status 1. *)
Definition main (env : Environment) (args : parse_args)
  (pdf_files : list PdfFile.t) (chunks_dir_ : directory) : Z :=
  match args with
  | HelpPrinted => 0
  | ArgumentError => 2
  | Namespace force skip_openwebui =>
      match process_pdfs env force skip_openwebui pdf_files chunks_dir_ with
      | Some outcome => if returned outcome then 0 else 1
      | None => 1
      end
  end.

(** The number of files with a given status. *)
Definition count_status (s : status) (details : list (str * status)) : Z :=
  len (filter (fun d => match snd d, s with
                        | Skipped, Skipped | Processed, Processed | Error, Error => true
                        | _, _ => false
                        end) details).

(** The chunk file written for a PDF with the given file name and text
    (lines 289-308), as [prepare_openwebui_collection] loads it. *)
Definition chunk_file_of (cs ov : Z) (pdf : str * str) : option (list Chunk) :=
  match ProcessPdfs.chunks (snd pdf) (fst pdf) cs ov with
  | Ok out => Some out
  | Raise _ => None
  end.

(** ** More sample inputs *)

Definition ten_letters : str := lit "abcdefghij".

Definition ten_letters_chunks : list Chunk :=
  Eval vm_compute in
    match ProcessPdfs.chunks ten_letters s_pdf 4 1 with
    | Ok out => out
    | Raise _ => []
    end.

Definition two_lines : str := lit "first line" ++ [nl] ++ lit "second line".

Definition two_pdfs : list (str * str) :=
  [ (lit "a.pdf", ten_letters); (lit "empty.pdf", []); (lit "b.pdf", ab) ].

Definition a_pdf : PdfFile.t := {| PdfFile.name := lit "a.pdf"; PdfFile.stem := lit "a" |}.
Definition b_pdf : PdfFile.t := {| PdfFile.name := lit "b.pdf"; PdfFile.stem := lit "b" |}.

(** An environment in which nothing raises. *)
Definition calm : Environment :=
  {| file_info_returns := fun _ => true;
     processed_info_returns := fun _ => true;
     try_block := fun _ => completes;
     prepare_returns := true |}.

(** ** The chunking block in the frame of [process_pdfs]

    Lines 289-304 run in the frame of [process_pdfs]: next to the
    variables they read and write there are the other locals of the
    function and, outside it, the files and the clock. Here the block is
    a transformer of that whole state, statement by statement. *)

Module Frame.

Record t : Type := mk {
  text : str;
  pdf_file_name : str;
  chunks : list Chunk;
  chunk_size : Z;
  overlap : Z;
  i : Z;
  chunk : str;
  (** the other locals at line 289 *)
  name : str;
  pages : Z;
  processed_date : str;
  markdown_content : str;
  processed_count : Z;
  skipped_count : Z;
  force_reprocess : bool;
  (** the files on disk, as paths with their contents, and the time
      [datetime.now()] would read *)
  files : list (str * str);
  clock : Z
}.

(** [chunks = v] *)
Definition assign_chunks (v : list Chunk) (fr : t) : t :=
  mk (text fr) (pdf_file_name fr) v (chunk_size fr) (overlap fr) (i fr) (chunk fr)
     (name fr) (pages fr) (processed_date fr) (markdown_content fr)
     (processed_count fr) (skipped_count fr) (force_reprocess fr) (files fr) (clock fr).

(** [chunk_size = v] *)
Definition assign_chunk_size (v : Z) (fr : t) : t :=
  mk (text fr) (pdf_file_name fr) (chunks fr) v (overlap fr) (i fr) (chunk fr)
     (name fr) (pages fr) (processed_date fr) (markdown_content fr)
     (processed_count fr) (skipped_count fr) (force_reprocess fr) (files fr) (clock fr).

(** [overlap = v] *)
Definition assign_overlap (v : Z) (fr : t) : t :=
  mk (text fr) (pdf_file_name fr) (chunks fr) (chunk_size fr) v (i fr) (chunk fr)
     (name fr) (pages fr) (processed_date fr) (markdown_content fr)
     (processed_count fr) (skipped_count fr) (force_reprocess fr) (files fr) (clock fr).

(** [i = v] *)
Definition assign_i (v : Z) (fr : t) : t :=
  mk (text fr) (pdf_file_name fr) (chunks fr) (chunk_size fr) (overlap fr) v (chunk fr)
     (name fr) (pages fr) (processed_date fr) (markdown_content fr)
     (processed_count fr) (skipped_count fr) (force_reprocess fr) (files fr) (clock fr).

(** [chunk = v] *)
Definition assign_chunk (v : str) (fr : t) : t :=
  mk (text fr) (pdf_file_name fr) (chunks fr) (chunk_size fr) (overlap fr) (i fr) v
     (name fr) (pages fr) (processed_date fr) (markdown_content fr)
     (processed_count fr) (skipped_count fr) (force_reprocess fr) (files fr) (clock fr).

(** Lines 295-304, with [i] bound to [v]. *)
Definition loop_body (fr : t) (v : Z) : t :=
  let fr := assign_i v fr in
  let fr := assign_chunk (slice (text fr) (i fr) (i fr + chunk_size fr)) fr in
  match chunk fr with
  | [] => fr
  | _ :: _ =>
      assign_chunks
        (chunks fr ++
         [ mkChunk (chunk fr)
             {| source := pdf_file_name fr;
                chunk_index := len (chunks fr);
                total_chunks := len (text fr) / (chunk_size fr - overlap fr) + 1 |} ])
        fr
  end.

(** Lines 294-304: the [range] is built once, from the frame at the
    start. *)
Definition loop (fr : t) : result t :=
  match range 0 (len (text fr)) (chunk_size fr - overlap fr) with
  | Raise e => Raise e
  | Ok offsets => Ok (fold_left loop_body offsets fr)
  end.

(** Lines 289-304, with the two literals of lines 290-291 as
    arguments. *)
Definition chunking (chunk_size_ overlap_ : Z) (fr : t) : result t :=
  loop (assign_overlap overlap_ (assign_chunk_size chunk_size_ (assign_chunks [] fr))).

(** What the block has no business with: the other locals, the files
    and the clock, and the two values it reads. *)
Definition outside (fr : t) :=
  (text fr, pdf_file_name fr, name fr, pages fr, processed_date fr, markdown_content fr,
   processed_count fr, skipped_count fr, force_reprocess fr, files fr, clock fr).

End Frame.

(** The value of [chunks] after the block, or its exception. *)
Definition chunks_after (r : result Frame.t) : result (list Chunk) :=
  match r with
  | Ok fr => Ok (Frame.chunks fr)
  | Raise e => Raise e
  end.

(** The chunks of the chunk files given that load, file after file. *)
Definition chunks_given (chunk_files : list (option (list Chunk))) : list Chunk :=
  concat
    (map (fun f => match f with Some chunks => chunks | None => [] end) chunk_files).

(** A text of two paragraphs. *)
Definition two_paragraphs : str := introduction ++ [nl; nl] ++ two_items.

(** Two frames of [process_pdfs] with the same text and PDF file name
    and nothing else in common. *)
Definition frame_one : Frame.t :=
  Frame.mk ten_letters s_pdf [] 0 0 0 [] (lit "s") 1 (lit "2024-01-01 00:00:00") []
    0 0 false [] 0.

Definition frame_two : Frame.t :=
  Frame.mk ten_letters s_pdf ten_letters_chunks 7 9 42 (lit "left over") (lit "t") 3
    (lit "2025-06-30 12:00:00") (lit "# t") 4 2 true [(lit "a_chunks.json", lit "[]")] 99.

(** ** Runs of the embedding *)

Example chunks_ab :
  ProcessPdfs.chunks_of_text ab s_pdf
  = Ok [ {| text := ab;
            metadata := {| source := s_pdf; chunk_index := 0; total_chunks := 1 |} |} ].
Proof. reflexivity. Qed.

Example range_0_10_3 : range 0 10 3 = Ok [0; 3; 6; 9].
Proof. reflexivity. Qed.

Example range_0_9_3 : range 0 9 3 = Ok [0; 3; 6].
Proof. reflexivity. Qed.

Example range_neg_step : range 0 10 (-1) = Ok [].
Proof. reflexivity. Qed.

Example chunks_10_by_3 :
  match ProcessPdfs.chunks (lit "abcdefghij") s_pdf 4 1 with
  | Ok out => map text out = [lit "abcd"; lit "defg"; lit "ghij"; lit "j"]
              /\ map (fun c => chunk_index (metadata c)) out = [0; 1; 2; 3]
              /\ map (fun c => total_chunks (metadata c)) out = [4; 4; 4; 4]
  | Raise _ => False
  end.
Proof. repeat split. Qed.

Example chunks_negative_size :
  match ProcessPdfs.chunks (lit "abcdefghi") s_pdf (-1) (-4) with
  | Ok out => map text out = [lit "abcdefgh"]
  | Raise _ => False
  end.
Proof. reflexivity. Qed.

Example chunks_zero_stride :
  ProcessPdfs.chunks (lit "abc") s_pdf 2 2 = Raise ValueError.
Proof. reflexivity. Qed.

Example generate_markdown_body :
  generate_markdown ascii_isupper ascii_islower ascii_istitle
    (lit "body") (lit "Title") 3 (lit "f.pdf") (lit "2024-01-01 00:00:00")
  = lit "# Title

**Source**: f.pdf
**Pages**: 3
**Processed**: 2024-01-01 00:00:00

---

body

".
Proof. reflexivity. Qed.

Example generate_markdown_kinds :
  generate_markdown ascii_isupper ascii_islower ascii_istitle
    (lit "INTRODUCTION

 - item one
- item two  

This is a normal sentence
second line

Ends with colon:")
    (lit "T") 0 (lit "f") (lit "d")
  = header (lit "T") 0 (lit "f") (lit "d")
    ++ lit "## INTRODUCTION

- item one
- item two

This is a normal sentence second line

## Ends with colon:

".
Proof. reflexivity. Qed.

Example prepare_two_files :
  match prepare_openwebui_collection nat counter_uuid4 two_files (lit "K") 0%nat with
  | (Some collection, drawn) =>
      map Document.title (documents collection) = [lit "a.pdf"; lit "b.pdf"]
      /\ map (fun d => map ContentChunk.content (Document.content_chunks d))
           (documents collection)
         = [[lit "a1"; lit "a2"]; [lit "b1"]]
      /\ map (fun d => map (fun cc => chunk_index (ContentChunk.metadata cc))
                        (Document.content_chunks d))
           (documents collection)
         = [[0; 1]; [0]]
      /\ map (fun d => map (fun cc => total_chunks (ContentChunk.metadata cc))
                        (Document.content_chunks d))
           (documents collection)
         = [[2; 2]; [1]]
      /\ drawn = 5%nat
  | (None, _) => False
  end.
Proof. repeat split. Qed.

Example split_blank_lines :
  split (lit "a" ++ [nl; nl; nl] ++ lit "b") [nl; nl] = [lit "a"; nl :: lit "b"].
Proof. reflexivity. Qed.

(** ** Facts about [range] and slices *)

Lemma len_nonneg {A : Type} (l : list A) : 0 <= len l.
Proof. unfold len. lia. Qed.

Lemma len_app {A : Type} (l l' : list A) : len (l ++ l') = len l + len l'.
Proof. unfold len. rewrite length_app. lia. Qed.

(** The elements of a [range] from 0 with a positive step. *)
Lemma range_positive_step (stop step : Z) :
  0 < step ->
  range 0 stop step
  = Ok (map (fun k => 0 + Z.of_nat k * step)
          (seq 0 (Z.to_nat (range_length 0 stop step)))).
Proof.
  intros Hstep. unfold range.
  destruct (step =? 0) eqn:E; [ apply Z.eqb_eq in E; lia | reflexivity ].
Qed.

Lemma range_length_positive_step (stop step : Z) :
  0 < step -> 0 <= stop ->
  range_length 0 stop step = (stop + step - 1) / step.
Proof.
  intros Hstep Hstop. unfold range_length.
  destruct (0 <? step) eqn:E; [ | apply Z.ltb_ge in E; lia ].
  destruct (stop <=? 0) eqn:E0.
  - apply Z.leb_le in E0. assert (stop = 0) by lia. subst stop.
    symmetry. apply Z.div_small. lia.
  - apply Z.leb_gt in E0.
    replace (stop + step - 1) with (stop - 0 - 1 + 1 * step) by lia.
    rewrite Z.div_add by lia. reflexivity.
Qed.

(** Every offset of the range is inside the text, and the range stops
    only when the next offset is outside. *)
Lemma range_offsets_bound (stop step : Z) (k : nat) :
  0 < step -> 0 <= stop ->
  (k < Z.to_nat (range_length 0 stop step))%nat <-> Z.of_nat k * step < stop.
Proof.
  intros Hstep Hstop. rewrite range_length_positive_step by assumption.
  pose proof (Z.div_mod (stop + step - 1) step ltac:(lia)) as Hdm.
  pose proof (Z.mod_pos_bound (stop + step - 1) step Hstep) as Hmod.
  assert (0 <= (stop + step - 1) / step) by (apply Z.div_pos; lia).
  split; intros H0; [ | apply Nat2Z.inj_lt; rewrite Z2Nat.id by lia ]; nia.
Qed.

Lemma slice_inside {A : Type} (s : list A) (i size : Z) :
  0 <= i < len s -> 0 <= size ->
  slice s i (i + size) = firstn (Z.to_nat size) (skipn (Z.to_nat i) s).
Proof.
  intros Hi Hsize. unfold slice, slice_index.
  destruct (i <? 0) eqn:E1; [ apply Z.ltb_lt in E1; lia | ].
  destruct (i + size <? 0) eqn:E2; [ apply Z.ltb_lt in E2; lia | ].
  rewrite (Z.min_l i) by lia.
  destruct (Z.min_spec (i + size) (len s)) as [[Hlt ->] | [Hge ->]].
  - f_equal. lia.
  - rewrite (firstn_all2 (n := Z.to_nat size)).
    + apply firstn_all2. rewrite length_skipn. unfold len in *. lia.
    + rewrite length_skipn. unfold len in *. lia.
Qed.

Lemma slice_inside_length {A : Type} (s : list A) (i size : Z) :
  0 <= i < len s -> 0 <= size ->
  len (slice s i (i + size)) = Z.min size (len s - i).
Proof.
  intros Hi Hsize. rewrite slice_inside by assumption.
  unfold len in *. rewrite length_firstn, length_skipn. lia.
Qed.

Lemma slice_inside_nth {A : Type} (s : list A) (i size : Z) (j : nat) :
  0 <= i < len s -> 0 <= size ->
  i <= Z.of_nat j < i + size ->
  nth_error (slice s i (i + size)) (j - Z.to_nat i) = nth_error s j.
Proof.
  intros Hi Hsize Hj. rewrite slice_inside by assumption.
  rewrite nth_error_firstn.
  destruct (Nat.ltb_spec (j - Z.to_nat i) (Z.to_nat size)); [ | lia ].
  rewrite nth_error_skipn. f_equal. lia.
Qed.

(** ** The chunking loop *)

Section ChunkingFacts.

Variables (T s : str) (cs ov : Z).

(** While every slice is non-empty, the loop appends one chunk per
    offset and numbers it with the length of the list so far. *)
Lemma fold_loop_body (m a : nat) (acc : list Chunk) :
  length acc = a ->
  (forall k, (a <= k < a + m)%nat ->
     slice T (0 + Z.of_nat k * (cs - ov)) (0 + Z.of_nat k * (cs - ov) + cs) <> []) ->
  fold_left (ProcessPdfs.loop_body T s cs ov)
    (map (fun k => 0 + Z.of_nat k * (cs - ov)) (seq a m)) acc
  = acc ++ map (chunk_at T s cs ov) (seq a m).
Proof.
  revert a acc. induction m as [ | m IH ]; intros a acc Hlen Hne; cbn [seq map fold_left].
  - now rewrite app_nil_r.
  - assert (Hstep : ProcessPdfs.loop_body T s cs ov acc (0 + Z.of_nat a * (cs - ov))
                    = acc ++ [chunk_at T s cs ov a]).
    { unfold ProcessPdfs.loop_body, chunk_at. cbv zeta.
      specialize (Hne a ltac:(lia)).
      destruct (slice T (0 + Z.of_nat a * (cs - ov)) (0 + Z.of_nat a * (cs - ov) + cs))
        as [ | c0 rest ]; [ congruence | ].
      unfold len. rewrite Hlen. reflexivity. }
    rewrite Hstep, (IH (S a)).
    + now rewrite <- app_assoc.
    + rewrite length_app. simpl. lia.
    + intros k Hk. apply Hne. lia.
Qed.

Hypothesis Hstride : 0 < cs - ov.
Hypothesis Hsize : 0 < cs.

Lemma slice_at_offset_nonempty (k : nat) :
  (k < Z.to_nat (range_length 0 (len T) (cs - ov)))%nat ->
  slice T (0 + Z.of_nat k * (cs - ov)) (0 + Z.of_nat k * (cs - ov) + cs) <> [].
Proof.
  intros Hk. apply range_offsets_bound in Hk; [ | lia | apply len_nonneg ].
  assert (0 <= Z.of_nat k * (cs - ov)) by nia.
  intros E. apply (f_equal len) in E.
  rewrite slice_inside_length in E by lia. unfold len in E at 2. simpl in E. lia.
Qed.

(** With a positive stride and a positive size the loop yields one chunk
    per offset of the range. *)
Lemma chunks_closed_form :
  ProcessPdfs.chunks T s cs ov
  = Ok (map (chunk_at T s cs ov) (seq 0 (Z.to_nat (range_length 0 (len T) (cs - ov))))).
Proof.
  unfold ProcessPdfs.chunks. rewrite range_positive_step by assumption.
  rewrite fold_loop_body; [ reflexivity | reflexivity | ].
  intros k Hk. apply slice_at_offset_nonempty. lia.
Qed.

End ChunkingFacts.

Lemma nth_error_map_seq {A : Type} (f : nat -> A) (n k : nat) :
  nth_error (map f (seq 0 n)) k = if (k <? n)%nat then Some (f k) else None.
Proof.
  rewrite nth_error_map.
  destruct (Nat.ltb_spec k n) as [Hlt | Hge].
  - rewrite nth_error_nth' with (d := 0%nat) by (rewrite length_seq; lia).
    rewrite seq_nth by lia. reflexivity.
  - assert (E : nth_error (seq 0 n) k = None)
      by (apply nth_error_None; rewrite length_seq; lia).
    now rewrite E.
Qed.

(** C1: with [chunk_size > overlap >= 0] the loop visits the offsets
    0, stride, 2 * stride, ... below the length of the text (stride =
    [chunk_size - overlap]) and appends one chunk per offset: the chunk
    of the [k]-th offset [i] holds the substring of at most [chunk_size]
    characters that starts at [i], its [chunk_index] is [k], the number
    of chunks appended before it, and every character of the text lies in
    one of the chunks. *)
Theorem chunker_offsets_indices_coverage (T s : str) (cs ov : Z) :
  0 <= ov < cs ->
  exists offsets out,
    range 0 (len T) (cs - ov) = Ok offsets /\
    ProcessPdfs.chunks T s cs ov = Ok out /\
    length out = length offsets /\
    len T <= len offsets * (cs - ov) /\
    (forall k i, nth_error offsets k = Some i ->
       i = Z.of_nat k * (cs - ov) /\ 0 <= i < len T /\
       exists c, nth_error out k = Some c /\
         text c = slice T i (i + cs) /\
         text c = firstn (Z.to_nat cs) (skipn (Z.to_nat i) T) /\
         0 < len (text c) <= cs /\
         chunk_index (metadata c) = Z.of_nat k) /\
    (forall j ch, nth_error T j = Some ch ->
       exists k i c,
         nth_error offsets k = Some i /\ nth_error out k = Some c /\
         i <= Z.of_nat j < i + len (text c) /\
         nth_error (text c) (j - Z.to_nat i) = Some ch).
Proof.
  intros Hvalid.
  assert (Hstride : 0 < cs - ov) by lia.
  assert (Hsize : 0 < cs) by lia.
  pose proof (len_nonneg T) as HT.
  set (n := Z.to_nat (range_length 0 (len T) (cs - ov))).
  exists (map (fun k => 0 + Z.of_nat k * (cs - ov)) (seq 0 n)),
         (map (chunk_at T s cs ov) (seq 0 n)).
  split; [ apply range_positive_step; assumption | ].
  split; [ apply chunks_closed_form; assumption | ].
  split; [ now rewrite !length_map | ].
  assert (Hin : forall k, (k < n)%nat -> 0 <= Z.of_nat k * (cs - ov) < len T).
  { intros k Hk. apply range_offsets_bound in Hk; [ | lia | lia ]. nia. }
  split; [ | split ].
  - unfold len at 2. rewrite length_map, length_seq.
    destruct (Z.lt_ge_cases (Z.of_nat n * (cs - ov)) (len T)) as [Hlt | Hge];
      [ | lia ].
    apply range_offsets_bound in Hlt; [ | lia | lia ]. fold n in Hlt. lia.
  - intros k i Hk. rewrite nth_error_map_seq in Hk.
    destruct (Nat.ltb_spec k n) as [Hlt | Hge]; [ | discriminate ].
    injection Hk as <-. specialize (Hin k Hlt).
    split; [ lia | split; [ lia | ] ].
    exists (chunk_at T s cs ov k). rewrite nth_error_map_seq.
    destruct (Nat.ltb_spec k n); [ | lia ].
    split; [ reflexivity | ]. unfold chunk_at. cbn [text metadata chunk_index].
    split; [ reflexivity | ].
    split; [ apply slice_inside; lia | ].
    split; [ | reflexivity ].
    rewrite slice_inside_length by lia. lia.
  - intros j ch Hj.
    assert (Hjlen : (j < length T)%nat) by (apply nth_error_Some; congruence).
    pose proof (Z.div_mod (Z.of_nat j) (cs - ov) ltac:(lia)) as Hdm.
    pose proof (Z.mod_pos_bound (Z.of_nat j) (cs - ov) Hstride) as Hmod.
    assert (Hq : 0 <= Z.of_nat j / (cs - ov)) by (apply Z.div_pos; lia).
    set (k := Z.to_nat (Z.of_nat j / (cs - ov))).
    assert (Hkz : Z.of_nat k = Z.of_nat j / (cs - ov)) by (unfold k; lia).
    assert (Hk : (k < n)%nat).
    { apply range_offsets_bound; [ lia | lia | ]. unfold len. nia. }
    specialize (Hin k Hk).
    exists k, (0 + Z.of_nat k * (cs - ov)), (chunk_at T s cs ov k).
    rewrite !nth_error_map_seq.
    destruct (Nat.ltb_spec k n); [ | lia ].
    split; [ reflexivity | split; [ reflexivity | ] ].
    unfold chunk_at. cbn [text].
    rewrite slice_inside_length by lia.
    assert (Hpos : 0 + Z.of_nat k * (cs - ov) <= Z.of_nat j
                   < 0 + Z.of_nat k * (cs - ov) + cs) by nia.
    split; [ unfold len in *; lia | ].
    rewrite slice_inside_nth by lia. exact Hj.
Qed.

Lemma chunker_offsets_indices_coverage_witness :
  0 <= ProcessPdfs.overlap < ProcessPdfs.chunk_size /\
  exists offsets out,
    range 0 (len ab) (ProcessPdfs.chunk_size - ProcessPdfs.overlap) = Ok offsets /\
    ProcessPdfs.chunks ab s_pdf ProcessPdfs.chunk_size ProcessPdfs.overlap = Ok out /\
    length out = length offsets.
Proof.
  assert (Hvalid : 0 <= ProcessPdfs.overlap < ProcessPdfs.chunk_size)
    by (unfold ProcessPdfs.overlap, ProcessPdfs.chunk_size; lia).
  split; [ exact Hvalid | ].
  destruct (chunker_offsets_indices_coverage ab s_pdf
              ProcessPdfs.chunk_size ProcessPdfs.overlap Hvalid)
    as (offsets & out & H1 & H2 & H3 & _).
  exists offsets, out. repeat split; assumption.
Defined.

(** C2: with [chunk_size > overlap >= 0] every chunk carries the same
    [total_chunks], [len(text) // (chunk_size - overlap) + 1]; the number
    of chunks appended is that value when the length of the text is not a
    multiple of the stride, and one less when it is, as for a text of 9
    characters cut with size 4 and overlap 1. *)
Theorem chunker_total_chunks_estimate (T s : str) (cs ov : Z) :
  0 <= ov < cs ->
  exists out,
    ProcessPdfs.chunks T s cs ov = Ok out /\
    (forall c, In c out ->
       total_chunks (metadata c) = len T / (cs - ov) + 1) /\
    (len T mod (cs - ov) <> 0 -> len out = len T / (cs - ov) + 1) /\
    (len T mod (cs - ov) = 0 ->
       len out = len T / (cs - ov) /\
       forall c, In c out -> total_chunks (metadata c) <> len out) /\
    (exists out9,
       ProcessPdfs.chunks (lit "abcdefghi") s 4 1 = Ok out9 /\
       len out9 = 3 /\
       Forall (fun c => total_chunks (metadata c) = 4) out9).
Proof.
  intros Hvalid.
  assert (Hstride : 0 < cs - ov) by lia.
  pose proof (len_nonneg T) as HT.
  exists (map (chunk_at T s cs ov)
            (seq 0 (Z.to_nat (range_length 0 (len T) (cs - ov))))).
  split; [ apply chunks_closed_form; lia | ].
  assert (Htotal : forall c,
            In c (map (chunk_at T s cs ov)
                    (seq 0 (Z.to_nat (range_length 0 (len T) (cs - ov))))) ->
            total_chunks (metadata c) = len T / (cs - ov) + 1).
  { intros c Hc. apply in_map_iff in Hc. destruct Hc as (k & <- & _). reflexivity. }
  assert (Hcount : len (map (chunk_at T s cs ov)
                          (seq 0 (Z.to_nat (range_length 0 (len T) (cs - ov)))))
                   = (len T + (cs - ov) - 1) / (cs - ov)).
  { unfold len at 1. rewrite length_map, length_seq.
    rewrite range_length_positive_step by lia.
    rewrite Z2Nat.id; [ reflexivity | apply Z.div_pos; lia ]. }
  pose proof (Z.div_mod (len T) (cs - ov) ltac:(lia)) as Hdm.
  pose proof (Z.mod_pos_bound (len T) (cs - ov) Hstride) as Hmod.
  split; [ exact Htotal | ].
  split; [ | split ].
  - intros Hrem. rewrite Hcount.
    symmetry. apply Z.div_unique with (r := len T mod (cs - ov) - 1); nia.
  - intros Hrem.
    assert (Hn : len (map (chunk_at T s cs ov)
                        (seq 0 (Z.to_nat (range_length 0 (len T) (cs - ov)))))
                 = len T / (cs - ov)).
    { rewrite Hcount.
      symmetry. apply Z.div_unique with (r := cs - ov - 1); nia. }
    split; [ exact Hn | ].
    intros c Hc. rewrite (Htotal c Hc), Hn. lia.
  - eexists. split; [ reflexivity | ]. split; [ reflexivity | ].
    repeat constructor.
Qed.

Lemma chunker_total_chunks_estimate_witness :
  0 <= 100 < 1000 /\
  exists out,
    ProcessPdfs.chunks ab s_pdf 1000 100 = Ok out /\
    (forall c, In c out -> total_chunks (metadata c) = len ab / (1000 - 100) + 1).
Proof.
  split; [ lia | ].
  destruct (chunker_total_chunks_estimate ab s_pdf 1000 100 ltac:(lia))
    as (out & H1 & H2 & _).
  exists out. split; assumption.
Defined.


(** The relation [loop] and the fold over [loop_body] describe the same
    loop. *)
Lemma loop_iff_fold (T s : str) (cs ov : Z) (offsets : list Z) :
  forall acc out,
    ProcessPdfs.loop T s cs ov offsets acc out
    <-> out = fold_left (ProcessPdfs.loop_body T s cs ov) offsets acc.
Proof.
  induction offsets as [ | i rest IH ]; intros acc out.
  - split.
    + intros H. inversion H; subst. reflexivity.
    + intros ->. constructor.
  - cbn [fold_left]. split.
    + intros H. inversion H; subst.
      * apply IH. unfold ProcessPdfs.loop_body.
        match goal with E : slice _ _ _ = [] |- _ => rewrite E end. assumption.
      * apply IH. unfold ProcessPdfs.loop_body.
        destruct (slice T i (i + cs)) eqn:E; [ congruence | assumption ].
    + intros ->. unfold ProcessPdfs.loop_body at 2.
      destruct (slice T i (i + cs)) as [ | c0 chunk' ] eqn:E.
      * apply ProcessPdfs.loop_empty; [ exact E | apply IH; reflexivity ].
      * apply ProcessPdfs.loop_append; [ congruence | ].
        rewrite E. apply IH. reflexivity.
Qed.

(** The relation [run] is the graph of the function [chunks]. *)
Lemma run_iff_chunks (T s : str) (cs ov : Z) :
  ProcessPdfs.run T s cs ov (ProcessPdfs.chunks T s cs ov) /\
  (forall r, ProcessPdfs.run T s cs ov r -> r = ProcessPdfs.chunks T s cs ov) /\
  (forall r1 r2,
     ProcessPdfs.run T s cs ov r1 -> ProcessPdfs.run T s cs ov r2 -> r1 = r2).
Proof.
  assert (Hfun : forall r, ProcessPdfs.run T s cs ov r -> r = ProcessPdfs.chunks T s cs ov).
  { intros r Hr. unfold ProcessPdfs.chunks. inversion Hr as [e He | offsets out He Hloop]; subst.
    - now rewrite He.
    - rewrite He. f_equal. now apply loop_iff_fold. }
  split; [ | split ].
  - unfold ProcessPdfs.chunks.
    destruct (range 0 (len T) (cs - ov)) as [offsets | e] eqn:E.
    + apply ProcessPdfs.run_chunks with (offsets := offsets); [ exact E | ].
      apply loop_iff_fold. reflexivity.
    + apply ProcessPdfs.run_raise. exact E.
  - exact Hfun.
  - intros r1 r2 H1 H2. rewrite (Hfun r1 H1), (Hfun r2 H2). reflexivity.
Qed.

(** ** Facts about [split], [startswith] and the paragraph loop *)

Lemma split_from_not_nil (sep : str) (s cur : str) (skip : nat) :
  split_from sep cur skip s <> [].
Proof.
  revert cur skip. induction s as [ | c s' IH ]; intros cur skip; cbn [split_from].
  - discriminate.
  - destruct skip as [ | k ]; [ | apply IH ].
    destruct (startswith (c :: s') sep); [ discriminate | apply IH ].
Qed.

(** A [split] that yields one piece found no separator: the piece is the
    whole string. *)
Lemma split_from_single (sep : str) (s cur : str) :
  length (split_from sep cur 0 s) = 1%nat ->
  split_from sep cur 0 s = [cur ++ s].
Proof.
  revert cur. induction s as [ | c s' IH ]; intros cur; cbn [split_from].
  - now rewrite app_nil_r.
  - destruct (startswith (c :: s') sep).
    + intros H. cbn [length] in H.
      pose proof (split_from_not_nil sep s' [] (length sep - 1)) as Hne.
      destruct (split_from sep [] (length sep - 1) s'); [ congruence | discriminate H ].
    + intros H. rewrite (IH _ H), <- app_assoc. reflexivity.
Qed.

Lemma split_single (s sep : str) :
  len (split s sep) = 1 -> split s sep = [s].
Proof.
  unfold len, split. intros H. apply (split_from_single sep s []). lia.
Qed.

Lemma startswith_app (s rest : str) : startswith (s ++ rest) s = true.
Proof.
  induction s as [ | c s' IH ]; [ reflexivity | ].
  cbn [app startswith]. now rewrite N.eqb_refl, IH.
Qed.

Lemma fold_left_append_lines (lines : list str) (md : str) :
  fold_left (fun md line => md ++ (line ++ [nl])) lines md
  = md ++ concat (map (fun line => line ++ [nl]) lines).
Proof.
  revert md. induction lines as [ | l lines IH ]; intros md; cbn [fold_left map concat].
  - now rewrite app_nil_r.
  - rewrite IH, <- app_assoc. reflexivity.
Qed.

Section GenerateMarkdownFacts.

Variables ch_isupper ch_islower ch_istitle : char -> bool.

(** An iteration only appends to [markdown]. *)
Lemma paragraph_body_appends (md p : str) :
  paragraph_body ch_isupper ch_islower ch_istitle md p = md ++ paragraph_body ch_isupper ch_islower ch_istitle [] p.
Proof.
  unfold paragraph_body. cbv zeta.
  repeat match goal with
         | |- context [ if ?b then _ else _ ] => destruct b
         end;
    rewrite ?fold_left_append_lines, <- ?app_assoc; reflexivity.
Qed.

Lemma fold_paragraph_body (ps : list str) (md : str) :
  fold_left (paragraph_body ch_isupper ch_islower ch_istitle) ps md = md ++ concat (map (paragraph_body ch_isupper ch_islower ch_istitle []) ps).
Proof.
  revert md. induction ps as [ | p ps IH ]; intros md; cbn [fold_left map concat].
  - now rewrite app_nil_r.
  - rewrite IH, (paragraph_body_appends md p), <- app_assoc. reflexivity.
Qed.

(** The output is the header followed by what each paragraph appends, in
    the order of the paragraphs. *)
Lemma generate_markdown_paragraphs
  (text_ title : str) (page_count : Z) (pdf_filename processed_date : str) :
  generate_markdown ch_isupper ch_islower ch_istitle text_ title page_count pdf_filename processed_date
  = header title page_count pdf_filename processed_date
    ++ concat (map (paragraph_body ch_isupper ch_islower ch_istitle []) (paragraphs text_)).
Proof. apply fold_paragraph_body. Qed.

End GenerateMarkdownFacts.

Section GenerateMarkdownClaims.

Variables ch_isupper ch_islower ch_istitle : char -> bool.

(** One iteration on a paragraph of one line: shorter than 100
    characters and upper-case ([isupper]) or ending with a colon or with
    a full stop, it is appended as a level-2 heading when it is shorter
    than 50 characters and as a level-3 heading otherwise; any other
    paragraph of one line is appended as it is, followed by a blank
    line. *)
Lemma paragraph_body_single_line (markdown paragraph : str) :
  len (split paragraph [nl]) = 1 ->
  let heading_like :=
    len paragraph < 100 /\
    (isupper ch_isupper ch_islower ch_istitle paragraph = true
     \/ endswith paragraph [colon] = true
     \/ endswith paragraph [dot] = true) in
  (heading_like -> len paragraph < 50 ->
     paragraph_body ch_isupper ch_islower ch_istitle markdown paragraph
     = markdown ++ lit "## " ++ paragraph ++ [nl; nl]) /\
  (heading_like -> 50 <= len paragraph ->
     paragraph_body ch_isupper ch_islower ch_istitle markdown paragraph
     = markdown ++ lit "### " ++ paragraph ++ [nl; nl]) /\
  (~ heading_like ->
     paragraph_body ch_isupper ch_islower ch_istitle markdown paragraph
     = markdown ++ paragraph ++ [nl; nl]).
Proof.
  intros Hone heading_like. subst heading_like.
  pose proof (split_single _ _ Hone) as Hlines.
  unfold paragraph_body. cbv zeta. rewrite Hlines.
  change (len [paragraph]) with 1. rewrite Z.eqb_refl. cbn [andb].
  destruct (len paragraph <? 100) eqn:E100.
  - apply Z.ltb_lt in E100.
    destruct (isupper ch_isupper ch_islower ch_istitle paragraph
              || endswith paragraph [colon] || endswith paragraph [dot]) eqn:Ehead.
    + split; [ | split ].
      * intros _ H50. apply Z.ltb_lt in H50. now rewrite H50.
      * intros _ H50. apply Z.ltb_ge in H50. now rewrite H50.
      * intros Hnot. exfalso. apply Hnot. split; [ exact E100 | ].
        apply orb_true_iff in Ehead. destruct Ehead as [Ehead | Ehead]; [ | tauto ].
        apply orb_true_iff in Ehead. tauto.
    + apply orb_false_iff in Ehead. destruct Ehead as [Ehead Edot].
      apply orb_false_iff in Ehead. destruct Ehead as [Eup Ecolon].
      split; [ | split ]; try reflexivity;
        intros [_ [H | [H | H]]]; congruence.
  - apply Z.ltb_ge in E100.
    assert (Hplain : (if existsb (fun line => startswith_any (strip line) list_markers)
                           [paragraph]
                      then fold_left (fun md line => md ++ (line ++ [nl])) [paragraph] markdown
                           ++ [nl]
                      else markdown ++ (join [space] [paragraph] ++ [nl; nl]))
                     = markdown ++ paragraph ++ [nl; nl]).
    { destruct (existsb _ [paragraph]); cbn [fold_left join];
        rewrite <- ?app_assoc; reflexivity. }
    split; [ intros [Hlt _]; lia | split; [ intros [Hlt _]; lia | ] ].
    intros _. exact Hplain.
Qed.

Lemma is_list_line_markers (line : str) :
  startswith_any (strip line) list_markers = true <-> is_list_line line.
Proof.
  unfold startswith_any, list_markers, is_list_line. cbn [existsb].
  rewrite !orb_true_iff. intuition discriminate.
Qed.

(** One iteration on a paragraph of several lines: with a line that,
    stripped, starts with the bullet character, a hyphen, an asterisk,
    [1.] or [2.], it is appended line by line, each line as it is and on
    a line of its own, followed by one blank line; with no such line it
    is appended as its lines joined with single spaces, followed by a
    blank line. A line that starts with another number, as [3.], is no
    list line. *)
Lemma paragraph_body_multi_line (markdown paragraph : str) :
  len (split paragraph [nl]) <> 1 ->
  let lines := split paragraph [nl] in
  ((exists line, In line lines /\ is_list_line line) ->
     paragraph_body ch_isupper ch_islower ch_istitle markdown paragraph
     = markdown ++ concat (map (fun line => line ++ [nl]) lines) ++ [nl]) /\
  (~ (exists line, In line lines /\ is_list_line line) ->
     paragraph_body ch_isupper ch_islower ch_istitle markdown paragraph
     = markdown ++ join [space] lines ++ [nl; nl]) /\
  ~ is_list_line (lit "3. third") /\
  paragraph_body ch_isupper ch_islower ch_istitle markdown
    (lit "3. third" ++ [nl] ++ lit "4. fourth")
  = markdown ++ lit "3. third 4. fourth" ++ [nl; nl].
Proof.
  intros Hmany lines.
  assert (Hany : existsb (fun line => startswith_any (strip line) list_markers) lines = true
                 <-> exists line, In line lines /\ is_list_line line).
  { rewrite existsb_exists. split; intros (line & Hin & H); exists line;
      (split; [ exact Hin | apply is_list_line_markers; exact H ]). }
  unfold paragraph_body. cbv zeta. fold lines.
  destruct (len lines =? 1) eqn:E1; [ apply Z.eqb_eq in E1; contradiction | ].
  cbn [andb].
  split; [ | split; [ | split ] ].
  - intros Hlist. apply Hany in Hlist. rewrite Hlist.
    rewrite fold_left_append_lines, <- app_assoc. reflexivity.
  - intros Hnone.
    destruct (existsb (fun line => startswith_any (strip line) list_markers) lines) eqn:E;
      [ exfalso; apply Hnone, Hany; reflexivity | reflexivity ].
  - intros H. apply is_list_line_markers in H. vm_compute in H. discriminate H.
  - reflexivity.
Qed.

(** C8: the output starts with the header: the title as a level-1
    heading, the source file name, the page count, the time of
    processing and a horizontal rule; for the title [Title], 3 pages,
    [f.pdf] and [2024-01-01 00:00:00] the header is the text given. *)
Theorem generate_markdown_header
  (text_ title : str) (page_count : Z) (pdf_filename processed_date : str) :
  header title page_count pdf_filename processed_date
  = lit "# " ++ title ++ [nl; nl]
    ++ lit "**Source**: " ++ pdf_filename ++ [nl]
    ++ lit "**Pages**: " ++ str_of_int page_count ++ [nl]
    ++ lit "**Processed**: " ++ processed_date ++ [nl; nl]
    ++ lit "---" ++ [nl; nl]
  /\ (exists body,
        generate_markdown ch_isupper ch_islower ch_istitle
          text_ title page_count pdf_filename processed_date
        = header title page_count pdf_filename processed_date ++ body)
  /\ startswith
       (generate_markdown ch_isupper ch_islower ch_istitle
          text_ title page_count pdf_filename processed_date)
       (header title page_count pdf_filename processed_date) = true
  /\ startswith
       (generate_markdown ch_isupper ch_islower ch_istitle
          (lit "body") (lit "Title") 3 (lit "f.pdf") (lit "2024-01-01 00:00:00"))
       (lit "# Title

**Source**: f.pdf
**Pages**: 3
**Processed**: 2024-01-01 00:00:00

---

") = true.
Proof.
  split; [ reflexivity | ].
  split; [ eexists; apply generate_markdown_paragraphs | ].
  split.
  - rewrite generate_markdown_paragraphs. apply startswith_app.
  - rewrite generate_markdown_paragraphs.
    change (header (lit "Title") 3 (lit "f.pdf") (lit "2024-01-01 00:00:00"))
      with (lit "# Title

**Source**: f.pdf
**Pages**: 3
**Processed**: 2024-01-01 00:00:00

---

").
    apply startswith_app.
Qed.

End GenerateMarkdownClaims.

(** ** Facts about the grouping by source *)

Lemma str_eqb_eq (a b : str) : str_eqb a b = true <-> a = b.
Proof.
  unfold str_eqb. destruct (list_eq_dec N.eq_dec a b); split; congruence.
Qed.

Lemma str_eqb_neq (a b : str) : str_eqb a b = false <-> a <> b.
Proof.
  unfold str_eqb. destruct (list_eq_dec N.eq_dec a b); split; congruence.
Qed.

Lemma seen_iff_In (seen : list str) (s : str) :
  existsb (fun s' => str_eqb s' s) seen = true <-> In s seen.
Proof.
  rewrite existsb_exists. split.
  - intros (s' & Hin & Heq). apply str_eqb_eq in Heq. now subst.
  - intros Hin. exists s. split; [ exact Hin | now apply str_eqb_eq ].
Qed.

Lemma distinct_sources_snoc (sources : list str) (s : str) :
  distinct_sources (sources ++ [s])
  = if existsb (fun s' => str_eqb s' s) (distinct_sources sources)
    then distinct_sources sources
    else distinct_sources sources ++ [s].
Proof. unfold distinct_sources. now rewrite fold_left_app. Qed.

Lemma distinct_sources_In (sources : list str) (s : str) :
  In s (distinct_sources sources) <-> In s sources.
Proof.
  induction sources as [ | s0 sources IH ] using rev_ind; [ reflexivity | ].
  rewrite distinct_sources_snoc, in_app_iff. cbn [In].
  destruct (existsb (fun s' => str_eqb s' s0) (distinct_sources sources)) eqn:E.
  - apply seen_iff_In in E. rewrite IH. split; [ tauto | ].
    intros [H | [<- | []]]; [ exact H | now apply IH ].
  - rewrite in_app_iff, IH. reflexivity.
Qed.

Lemma distinct_sources_NoDup (sources : list str) : NoDup (distinct_sources sources).
Proof.
  induction sources as [ | s0 sources IH ] using rev_ind; [ constructor | ].
  rewrite distinct_sources_snoc.
  destruct (existsb (fun s' => str_eqb s' s0) (distinct_sources sources)) eqn:E;
    [ exact IH | ].
  apply NoDup_app; [ exact IH | repeat constructor; intros [] | ].
  intros s Hs [<- | []].
  apply seen_iff_In in Hs. congruence.
Qed.

Section DictFacts.

Variable A : Type.
Variable g : str -> list A.

Lemma contains_keys (keys : list str) (k : str) :
  Dict.contains (map (fun s => (s, g s)) keys) k
  = existsb (fun s' => str_eqb s' k) keys.
Proof.
  unfold Dict.contains. induction keys as [ | s keys IH ]; [ reflexivity | ].
  cbn [map existsb fst]. now rewrite IH.
Qed.

Lemma setitem_new_key (d : Dict.t (list A)) (k : str) (v : list A) :
  Dict.contains d k = false -> Dict.setitem d k v = d ++ [(k, v)].
Proof.
  unfold Dict.contains. induction d as [ | [k' v'] d IH ]; [ reflexivity | ].
  cbn [existsb fst Dict.setitem app]. intros H.
  apply orb_false_iff in H. destruct H as [Hk Hd].
  rewrite Hk, (IH Hd). reflexivity.
Qed.

Lemma append_at_absent (d : Dict.t (list A)) (k : str) (x : A) :
  Dict.contains d k = false -> Dict.append_at d k x = d.
Proof.
  unfold Dict.contains. induction d as [ | [k' v'] d IH ]; [ reflexivity | ].
  cbn [existsb fst Dict.append_at]. intros H.
  apply orb_false_iff in H. destruct H as [Hk Hd].
  rewrite Hk, (IH Hd). reflexivity.
Qed.

Lemma append_at_app_new (d : Dict.t (list A)) (k : str) (v : list A) (x : A) :
  Dict.contains d k = false ->
  Dict.append_at (d ++ [(k, v)]) k x = d ++ [(k, v ++ [x])].
Proof.
  unfold Dict.contains. induction d as [ | [k' v'] d IH ].
  - intros _. cbn [app Dict.append_at].
    assert (E : str_eqb k k = true) by now apply str_eqb_eq.
    now rewrite E.
  - cbn [existsb fst Dict.append_at app]. intros H.
    apply orb_false_iff in H. destruct H as [Hk Hd].
    rewrite Hk, (IH Hd). reflexivity.
Qed.

(** Appending under a key of a dict whose keys are distinct changes the
    value of that key and no other. *)
Lemma append_at_keys (keys : list str) (k : str) (x : A) :
  NoDup keys ->
  Dict.append_at (map (fun s => (s, g s)) keys) k x
  = map (fun s => (s, if str_eqb s k then g s ++ [x] else g s)) keys.
Proof.
  induction keys as [ | s keys IH ]; intros Hnd; [ reflexivity | ].
  inversion Hnd as [ | s' keys' Hnotin Hnd' ]; subst.
  cbn [map Dict.append_at].
  destruct (str_eqb s k) eqn:E.
  - f_equal. apply str_eqb_eq in E. subst k.
    apply map_ext_in. intros s' Hs'.
    destruct (str_eqb s' s) eqn:E'; [ | reflexivity ].
    apply str_eqb_eq in E'. congruence.
  - f_equal. apply IH. exact Hnd'.
Qed.

End DictFacts.

Lemma chunks_of_source_snoc (s : str) (l : list Chunk) (c : Chunk) :
  chunks_of_source s (l ++ [c])
  = if str_eqb (source_of c) s
    then chunks_of_source s l ++ [c]
    else chunks_of_source s l.
Proof.
  unfold chunks_of_source. rewrite filter_app. cbn [filter].
  destruct (str_eqb (source_of c) s); [ reflexivity | apply app_nil_r ].
Qed.

Lemma chunks_of_unseen_source (s : str) (l : list Chunk) :
  ~ In s (map source_of l) -> chunks_of_source s l = [].
Proof.
  unfold chunks_of_source. induction l as [ | c l IH ]; [ reflexivity | ].
  cbn [map In filter]. intros H.
  destruct (str_eqb (source_of c) s) eqn:E.
  - apply str_eqb_eq in E. tauto.
  - apply IH. tauto.
Qed.

(** The dict built by lines 103-108: one key per distinct source, in
    first-seen order, with the chunks of that source in input order. *)
Lemma group_by_source_spec (all_chunks : list Chunk) :
  group_by_source all_chunks
  = map (fun s => (s, chunks_of_source s all_chunks))
      (distinct_sources (map source_of all_chunks)).
Proof.
  induction all_chunks as [ | c l IH ] using rev_ind; [ reflexivity | ].
  unfold group_by_source in *. rewrite fold_left_app. cbn [fold_left].
  rewrite IH. unfold group_body. fold (source_of c).
  rewrite map_app. cbn [map]. rewrite distinct_sources_snoc.
  rewrite contains_keys.
  destruct (existsb (fun s' => str_eqb s' (source_of c))
              (distinct_sources (map source_of l))) eqn:E; cbn [negb].
  - rewrite append_at_keys by apply distinct_sources_NoDup.
    apply map_ext. intros s. rewrite chunks_of_source_snoc.
    destruct (str_eqb s (source_of c)) eqn:E1, (str_eqb (source_of c) s) eqn:E2;
      try reflexivity.
    + apply str_eqb_eq in E1. apply str_eqb_neq in E2. congruence.
    + apply str_eqb_eq in E2. apply str_eqb_neq in E1. congruence.
  - rewrite setitem_new_key by (rewrite contains_keys; exact E).
    rewrite append_at_app_new by (rewrite contains_keys; exact E).
    rewrite map_app. cbn [map app].
    assert (Hunseen : ~ In (source_of c) (map source_of l)).
    { intros Hin. apply distinct_sources_In, seen_iff_In in Hin. congruence. }
    f_equal.
    + apply map_ext_in. intros s Hs. rewrite chunks_of_source_snoc.
      destruct (str_eqb (source_of c) s) eqn:E2; [ | reflexivity ].
      apply str_eqb_eq in E2. subst s.
      exfalso. exact (Hunseen (proj1 (distinct_sources_In _ _) Hs)).
    + rewrite chunks_of_source_snoc.
      assert (E2 : str_eqb (source_of c) (source_of c) = true) by now apply str_eqb_eq.
      rewrite E2, (chunks_of_unseen_source _ _ Hunseen). reflexivity.
Qed.

(** ** Facts about the loops that draw UUIDs *)

Lemma Forall2_nth_error_r {A B : Type} (R : A -> B -> Prop) (l : list A) (l' : list B) :
  Forall2 R l l' ->
  forall k b, nth_error l' k = Some b -> exists a, nth_error l k = Some a /\ R a b.
Proof.
  induction 1 as [ | a b l l' Hab _ IH ]; intros k b0 Hk.
  - destruct k; discriminate Hk.
  - destruct k as [ | k ]; cbn [nth_error] in *.
    + injection Hk as <-. exists a. split; [ reflexivity | exact Hab ].
    + apply IH. exact Hk.
Qed.

Lemma enumerate_from_nth_error {A : Type} (l : list A) :
  forall (a k : nat) (i : Z) (x : A),
    nth_error (combine (map Z.of_nat (seq a (length l))) l) k = Some (i, x) ->
    i = Z.of_nat (a + k) /\ nth_error l k = Some x.
Proof.
  induction l as [ | y l IH ]; intros a k i x Hk; cbn [length seq map combine] in Hk.
  - destruct k; discriminate Hk.
  - destruct k as [ | k ]; cbn [nth_error] in *.
    + injection Hk as <- <-. split; [ f_equal; lia | reflexivity ].
    + destruct (IH (S a) k i x Hk) as [-> Hx]. split; [ f_equal; lia | exact Hx ].
Qed.

Lemma enumerate_nth_error {A : Type} (l : list A) (k : nat) (i : Z) (x : A) :
  nth_error (enumerate l) k = Some (i, x) -> i = Z.of_nat k /\ nth_error l k = Some x.
Proof. intros H. apply (enumerate_from_nth_error l 0 k i x H). Qed.

Lemma enumerate_length {A : Type} (l : list A) : length (enumerate l) = length l.
Proof. unfold enumerate. rewrite length_combine, length_map, length_seq. lia. Qed.

Lemma enumerate_map_snd {A : Type} (l : list A) : map snd (enumerate l) = l.
Proof.
  unfold enumerate. generalize 0%nat.
  induction l as [ | x l IH ]; intros a; [ reflexivity | ].
  cbn [length seq map combine snd]. now rewrite IH.
Qed.

Lemma enumerate_map {A B : Type} (f : A -> B) (l : list A) :
  enumerate (map f l) = map (fun ix => (fst ix, f (snd ix))) (enumerate l).
Proof.
  unfold enumerate. rewrite length_map. generalize 0%nat.
  induction l as [ | x l IH ]; intros a; [ reflexivity | ].
  cbn [length seq map combine fst snd]. now rewrite IH.
Qed.

Section LoopFacts.

Variable entropy : Type.
Variable uuid4 : entropy -> str * entropy.

(** A loop whose body appends one related element per item yields the
    elements related to the items, in order. *)
Lemma for_each_appends {A B : Type}
  (body : list B -> A -> M entropy (list B)) (R : A -> B -> Prop) (l : list A) :
  (forall acc x st, In x l ->
     exists b st', body acc x st = (acc ++ [b], st') /\ R x b) ->
  forall acc st,
    exists new st', for_each entropy body l acc st = (acc ++ new, st') /\ Forall2 R l new.
Proof.
  induction l as [ | x l IH ]; intros Hbody acc st.
  - exists [], st. split; [ cbn; unfold ret; now rewrite app_nil_r | constructor ].
  - destruct (Hbody acc x st (or_introl eq_refl)) as (b & st1 & Hb & Hxb).
    destruct (IH (fun acc' y st' Hy => Hbody acc' y st' (or_intror Hy)) (acc ++ [b]) st1)
      as (new & st2 & Hnew & Hall).
    exists (b :: new), st2. split; [ | constructor; assumption ].
    cbn [for_each]. unfold bind. rewrite Hb, Hnew, <- app_assoc. reflexivity.
Qed.

(** Two loops over item lists that correspond through [f] and whose
    bodies agree on corresponding items are the same computation. *)
Lemma for_each_map {A A' S : Type} (f : A -> A')
  (body : S -> A -> M entropy S) (body' : S -> A' -> M entropy S) (l : list A) :
  (forall acc x st, body' acc (f x) st = body acc x st) ->
  forall acc st, for_each entropy body' (map f l) acc st = for_each entropy body l acc st.
Proof.
  intros Hbody. induction l as [ | x l IH ]; intros acc st; [ reflexivity | ].
  cbn [map for_each]. unfold bind. rewrite Hbody.
  destruct (body acc x st) as [acc' st']. apply IH.
Qed.

Lemma content_chunk_body_appends (doc_id source_ : str) (doc_chunks : list Chunk) :
  forall acc ic st,
    exists cc st',
      content_chunk_body entropy uuid4 doc_id source_ doc_chunks acc ic st
      = (acc ++ [cc], st')
      /\ content_chunk_of doc_id source_ (len doc_chunks) ic cc.
Proof.
  intros acc [i chunk] st. unfold content_chunk_body, bind, ret.
  destruct (uuid4 st) as [chunk_id st'].
  eexists. exists st'. split; [ reflexivity | ].
  unfold content_chunk_of. cbn. repeat split.
Qed.

Lemma document_body_appends :
  forall acc item st,
    exists d st',
      document_body entropy uuid4 acc item st = (acc ++ [d], st')
      /\ document_of item d.
Proof.
  intros acc [source_ doc_chunks] st. unfold document_body, bind, ret.
  destruct (uuid4 st) as [doc_id st1].
  destruct (for_each_appends
              (content_chunk_body entropy uuid4 doc_id source_ doc_chunks)
              (content_chunk_of doc_id source_ (len doc_chunks))
              (enumerate doc_chunks)
              (fun acc' ic st' _ =>
                 content_chunk_body_appends doc_id source_ doc_chunks acc' ic st')
              [] st1)
    as (ccs & st2 & Hccs & Hall).
  rewrite Hccs. cbn [app].
  eexists. exists st2. split; [ reflexivity | ].
  unfold document_of. cbn. repeat split. exact Hall.
Qed.

(** The documents loop over a dict: one document per item, in order. *)
Lemma documents_loop (items : Dict.t (list Chunk)) (st : entropy) :
  exists docs st',
    for_each entropy (document_body entropy uuid4) items [] st = (docs, st')
    /\ Forall2 document_of items docs.
Proof.
  destruct (for_each_appends (document_body entropy uuid4) document_of items
              (fun acc item st' _ => document_body_appends acc item st') [] st)
    as (docs & st' & Hdocs & Hall).
  exists docs, st'. split; assumption.
Qed.

Lemma content_chunks_content (doc_id source_ : str) (total : Z)
  (ics : list (Z * Chunk)) (ccs : list ContentChunk.t) :
  Forall2 (content_chunk_of doc_id source_ total) ics ccs ->
  map ContentChunk.content ccs = map (fun ic => text (snd ic)) ics.
Proof.
  induction 1 as [ | ic cc ics ccs (_ & Hc & _) _ IH ]; [ reflexivity | ].
  cbn [map]. now rewrite Hc, IH.
Qed.

(** The content chunks of a document, read against the chunks they were
    made from. *)
Lemma document_of_content (item : str * list Chunk) (d : Document.t) :
  document_of item d ->
  length (Document.content_chunks d) = length (snd item) /\
  map ContentChunk.content (Document.content_chunks d) = map text (snd item) /\
  (forall k cc, nth_error (Document.content_chunks d) k = Some cc ->
     ContentChunk.doc_id cc = Document.id d /\
     ContentChunk.metadata cc
     = {| source := Document.title d;
          chunk_index := Z.of_nat k;
          total_chunks := len (Document.content_chunks d) |}).
Proof.
  intros (Htitle & _ & Hall).
  assert (Hlen : length (Document.content_chunks d) = length (snd item)).
  { apply Forall2_length in Hall. rewrite enumerate_length in Hall. congruence. }
  split; [ exact Hlen | ]. split.
  - rewrite <- (enumerate_map_snd (snd item)) at 1.
    rewrite map_map. eapply content_chunks_content. exact Hall.
  - intros k cc Hk.
    destruct (Forall2_nth_error_r _ _ _ Hall k cc Hk) as ([i c] & Hic & Hd & _ & Hm).
    apply enumerate_nth_error in Hic. destruct Hic as [-> _].
    split; [ exact Hd | ]. rewrite Hm, Htitle. unfold len. now rewrite Hlen.
Qed.

End LoopFacts.

Section BlankCounts.

Variable entropy : Type.
Variable uuid4 : entropy -> str * entropy.

Lemma load_all_spec (chunk_files : list (option (list Chunk))) :
  load_all chunk_files
  = concat (map (fun f => match f with Some chunks => chunks | None => [] end) chunk_files).
Proof.
  unfold load_all.
  assert (H : forall acc,
            fold_left
              (fun all_chunks f =>
                 match f with
                 | Some chunks => all_chunks ++ chunks
                 | None => all_chunks
                 end) chunk_files acc
            = acc ++ concat (map (fun f => match f with Some chunks => chunks | None => [] end)
                               chunk_files)).
  { induction chunk_files as [ | [chunks | ] files IH ]; intros acc; cbn [fold_left map concat].
    - now rewrite app_nil_r.
    - now rewrite IH, app_assoc.
    - now rewrite IH. }
  apply (H []).
Qed.

Lemma load_all_blank (chunk_files : list (option (list Chunk))) :
  load_all (map blank_file chunk_files) = map blank_counts (load_all chunk_files).
Proof.
  rewrite !load_all_spec, concat_map, !map_map. f_equal.
  apply map_ext. intros [chunks | ]; reflexivity.
Qed.

Lemma group_by_source_blank (all_chunks : list Chunk) :
  group_by_source (map blank_counts all_chunks)
  = map (fun item => (fst item, map blank_counts (snd item))) (group_by_source all_chunks).
Proof.
  rewrite !group_by_source_spec, !map_map. cbn [fst snd].
  replace (map (fun c => source_of (blank_counts c)) all_chunks)
    with (map source_of all_chunks) by (apply map_ext; reflexivity).
  apply map_ext. intros s. f_equal.
  unfold chunks_of_source. induction all_chunks as [ | c l IH ]; [ reflexivity | ].
  cbn [map filter]. change (source_of (blank_counts c)) with (source_of c).
  destruct (str_eqb (source_of c) s); cbn [map]; now rewrite IH.
Qed.

(** A document is built from the text and the source of its chunks
    only. *)
Lemma document_body_blank (acc : list Document.t) (item : str * list Chunk) (st : entropy) :
  document_body entropy uuid4 acc (fst item, map blank_counts (snd item)) st
  = document_body entropy uuid4 acc item st.
Proof.
  destruct item as [source_ doc_chunks]. cbn [fst snd].
  unfold document_body, bind. destruct (uuid4 st) as [doc_id st1].
  rewrite enumerate_map.
  rewrite (for_each_map entropy (fun ix => (fst ix, blank_counts (snd ix)))
             (content_chunk_body entropy uuid4 doc_id source_ doc_chunks)); [ reflexivity | ].
  intros ccs [i c] st'. unfold content_chunk_body, bind, len. cbn [fst snd].
  rewrite length_map. reflexivity.
Qed.

Lemma prepare_openwebui_collection_blank
  (chunk_files : list (option (list Chunk))) (collection_name : str) (st : entropy) :
  prepare_openwebui_collection entropy uuid4 (map blank_file chunk_files) collection_name st
  = prepare_openwebui_collection entropy uuid4 chunk_files collection_name st.
Proof.
  unfold prepare_openwebui_collection. rewrite load_all_blank.
  destruct (load_all chunk_files) as [ | c l ]; [ reflexivity | ].
  change (blank_counts c :: map blank_counts l) with (map blank_counts (c :: l)).
  cbn [map]. fold (map blank_counts (c :: l)).
  change (blank_counts c :: map blank_counts l) with (map blank_counts (c :: l)).
  rewrite group_by_source_blank. unfold bind.
  rewrite (for_each_map entropy (fun item => (fst item, map blank_counts (snd item)))
             (document_body entropy uuid4)); [ reflexivity | ].
  intros acc item st'. apply document_body_blank.
Qed.

End BlankCounts.

Section PrepareOpenwebuiCollectionClaims.

Variable entropy : Type.
Variable uuid4 : entropy -> str * entropy.

(** What is written, in terms of the list [all_chunks] of line 100. *)
Lemma assembler_groups_all_chunks
  (chunk_files : list (option (list Chunk))) (collection_name : str) (st : entropy) :
  let all_chunks := load_all chunk_files in
  exists written st',
    prepare_openwebui_collection entropy uuid4 chunk_files collection_name st
    = (written, st') /\
    (all_chunks <> [] ->
       exists docs, written = Some {| name := collection_name; documents := docs |}) /\
    map Document.title (documents_written written)
    = distinct_sources (map source_of all_chunks) /\
    NoDup (map Document.title (documents_written written)) /\
    (forall s, In s (map Document.title (documents_written written))
               <-> exists c, In c all_chunks /\ source (metadata c) = s) /\
    (forall d, In d (documents_written written) ->
       map ContentChunk.content (Document.content_chunks d)
       = map text (chunks_of_source (Document.title d) all_chunks) /\
       forall k cc, nth_error (Document.content_chunks d) k = Some cc ->
         ContentChunk.metadata cc
         = {| source := Document.title d;
              chunk_index := Z.of_nat k;
              total_chunks := len (Document.content_chunks d) |}) /\
    (forall chunk_files',
       map (option_map (map blank_counts)) chunk_files'
       = map (option_map (map blank_counts)) chunk_files ->
       prepare_openwebui_collection entropy uuid4 chunk_files' collection_name st
       = (written, st')).
Proof.
  intros all_chunks.
  destruct (documents_loop entropy uuid4 (group_by_source all_chunks) st)
    as (docs & st' & Hloop & Hall).
  rewrite group_by_source_spec in Hall.
  assert (Htitles : map Document.title docs = distinct_sources (map source_of all_chunks)).
  { clear Hloop. revert Hall. generalize (distinct_sources (map source_of all_chunks)).
    intros keys. revert docs. induction keys as [ | s keys IH ]; intros docs Hall.
    - inversion Hall. reflexivity.
    - inversion Hall as [ | item d items docs' (Ht & _) Hrest ]; subst.
      cbn [map]. rewrite Ht. f_equal. apply IH. exact Hrest. }
  assert (Hdoc : forall d, In d docs ->
            document_of (Document.title d, chunks_of_source (Document.title d) all_chunks) d).
  { clear Hloop Htitles. revert Hall. generalize (distinct_sources (map source_of all_chunks)).
    intros keys Hall d Hd.
    apply In_nth_error in Hd. destruct Hd as [k Hk].
    destruct (Forall2_nth_error_r _ _ _ Hall k d Hk) as (item & Hitem & Hof).
    rewrite nth_error_map in Hitem.
    destruct (nth_error keys k) as [ s | ]; [ | discriminate Hitem ].
    injection Hitem as <-. destruct Hof as (Ht & Hrest). cbn [fst] in Ht.
    subst s. split; [ reflexivity | exact Hrest ]. }
  set (written := match all_chunks with
                  | [] => None
                  | _ :: _ => Some {| name := collection_name; documents := docs |}
                  end).
  set (st_end := match all_chunks with [] => st | _ :: _ => st' end).
  assert (Hrun : prepare_openwebui_collection entropy uuid4 chunk_files collection_name st
                 = (written, st_end)).
  { unfold prepare_openwebui_collection, written, st_end. fold all_chunks.
    destruct all_chunks as [ | c l ] eqn:E; [ reflexivity | ].
    unfold bind. rewrite Hloop. reflexivity. }
  assert (Hdocs : documents_written written = docs).
  { unfold written. destruct all_chunks as [ | c l ] eqn:E; [ | reflexivity ].
    cbn in Htitles. destruct docs; [ reflexivity | discriminate Htitles ]. }
  exists written, st_end.
  split; [ exact Hrun | ].
  split.
  { intros Hne. unfold written. destruct all_chunks; [ congruence | ]. now exists docs. }
  rewrite Hdocs.
  split; [ exact Htitles | ].
  split; [ rewrite Htitles; apply distinct_sources_NoDup | ].
  split.
  { intros s. rewrite Htitles, distinct_sources_In, in_map_iff.
    split; intros (c & H1 & H2); exists c; unfold source_of in *; tauto. }
  split.
  { intros d Hd. destruct (document_of_content _ _ (Hdoc d Hd)) as (_ & Hcontent & Hmeta).
    split; [ exact Hcontent | ]. intros k cc Hk. apply (Hmeta k cc Hk). }
  intros chunk_files' Hsame.
  rewrite <- Hrun.
  rewrite <- (prepare_openwebui_collection_blank entropy uuid4 chunk_files').
  unfold blank_file. rewrite Hsame.
  apply (prepare_openwebui_collection_blank entropy uuid4 chunk_files).
Qed.

(** C5, as the builder behaves: with no chunk in any chunk file it does
    not fail and draws no UUID; it returns at line 98 and writes no
    collection. *)
Theorem assembler_no_chunks
  (chunk_files : list (option (list Chunk))) (collection_name : str) (st : entropy) :
  load_all chunk_files = [] ->
  prepare_openwebui_collection entropy uuid4 chunk_files collection_name st = (None, st).
Proof.
  intros Hnone. unfold prepare_openwebui_collection. now rewrite Hnone.
Qed.

(** C10: in a collection written by the builder every content chunk of a
    document carries the [id] of that document as its [doc_id]. *)
Theorem content_chunk_doc_id
  (chunk_files : list (option (list Chunk))) (collection_name : str) (st st' : entropy)
  (collection : Collection) :
  prepare_openwebui_collection entropy uuid4 chunk_files collection_name st
  = (Some collection, st') ->
  forall d cc,
    In d (documents collection) ->
    In cc (Document.content_chunks d) ->
    ContentChunk.doc_id cc = Document.id d.
Proof.
  unfold prepare_openwebui_collection.
  destruct (load_all chunk_files) as [ | c l ]; [ discriminate | ].
  destruct (documents_loop entropy uuid4 (group_by_source (c :: l)) st)
    as (docs & st1 & Hloop & Hall).
  unfold bind, ret. rewrite Hloop. intros Hrun. injection Hrun as <- <-.
  cbn [documents]. intros d cc Hd Hcc.
  apply In_nth_error in Hd. destruct Hd as [k Hk].
  destruct (Forall2_nth_error_r _ _ _ Hall k d Hk) as (item & _ & Hof).
  apply In_nth_error in Hcc. destruct Hcc as [j Hj].
  destruct (document_of_content _ _ Hof) as (_ & _ & Hmeta).
  apply (Hmeta j cc Hj).
Qed.

End PrepareOpenwebuiCollectionClaims.

(** C5, counterexample: run on no chunk file, the builder yields no
    collection, hence none whose list of documents is empty. *)
Lemma assembler_no_chunks_writes_no_collection :
  ~ exists collection st',
      prepare_openwebui_collection nat counter_uuid4 [] (lit "name") 0%nat
      = (Some collection, st')
      /\ documents collection = [].
Proof.
  intros (collection & st' & Hrun & _). discriminate Hrun.
Qed.

Lemma assembler_no_chunks_witness :
  load_all [Some []; None] = [] /\
  prepare_openwebui_collection nat counter_uuid4 [Some []; None] (lit "name") 0%nat
  = (None, 0%nat).
Proof.
  split; [ reflexivity | ].
  apply (assembler_no_chunks nat counter_uuid4 [Some []; None] (lit "name") 0%nat eq_refl).
Defined.

Lemma content_chunk_doc_id_witness :
  exists collection st',
    prepare_openwebui_collection nat counter_uuid4 two_files (lit "K") 0%nat
    = (Some collection, st')
    /\ forall d cc,
         In d (documents collection) ->
         In cc (Document.content_chunks d) ->
         ContentChunk.doc_id cc = Document.id d.
Proof.
  destruct (prepare_openwebui_collection nat counter_uuid4 two_files (lit "K") 0%nat)
    as [[collection | ] st'] eqn:Hrun; [ | vm_compute in Hrun; discriminate Hrun ].
  exists collection, st'. split; [ reflexivity | ].
  apply (content_chunk_doc_id nat counter_uuid4 two_files (lit "K") 0%nat st' collection Hrun).
Defined.

(** ** [split], [join] and [strip] as string operations *)

Lemma startswith_iff (s prefix : str) :
  startswith s prefix = true <-> exists rest, s = prefix ++ rest.
Proof.
  revert s. induction prefix as [ | p prefix IH ]; intros s; cbn [startswith].
  - split; [ intros _; now exists s | reflexivity ].
  - destruct s as [ | c s ].
    + split; [ discriminate | intros [rest H]; discriminate H ].
    + rewrite andb_true_iff, N.eqb_eq, IH. split.
      * intros [-> [rest ->]]. now exists rest.
      * intros [rest H]. injection H as -> ->. split; [ reflexivity | now exists rest ].
Qed.

(** Passing over [k] characters is dropping them. *)
Lemma split_from_skipn (sep : str) (k : nat) :
  forall s cur, split_from sep cur k s = split_from sep cur 0 (skipn k s).
Proof.
  induction k as [ | k IH ]; intros s cur; [ reflexivity | ].
  destruct s as [ | c s ]; [ reflexivity | ]. cbn [split_from skipn]. apply IH.
Qed.

(** The two cases of a [split] step, with the rest of the string after a
    separator made explicit. *)
Lemma split_from_match (sep cur rest : str) :
  sep <> [] ->
  split_from sep cur 0 (sep ++ rest) = cur :: split_from sep [] 0 rest.
Proof.
  intros Hsep. destruct sep as [ | c sep' ]; [ congruence | ].
  change ((c :: sep') ++ rest) with (c :: (sep' ++ rest)). cbn [split_from].
  assert (E : startswith (c :: sep' ++ rest) (c :: sep') = true)
    by (apply startswith_iff; now exists rest).
  rewrite E. f_equal. rewrite split_from_skipn. cbn [length].
  replace (S (length sep') - 1)%nat with (length sep') by lia.
  now rewrite skipn_app, skipn_all, Nat.sub_diag.
Qed.

Lemma split_from_no_match (sep cur : str) (c : char) (s : str) :
  startswith (c :: s) sep = false ->
  split_from sep cur 0 (c :: s) = split_from sep (cur ++ [c]) 0 s.
Proof. intros E. cbn [split_from]. now rewrite E. Qed.

(** Induction over the steps of [split]: at each position either the
    separator starts there and the scan resumes after it, or the scan
    moves on by one character. *)
Lemma split_steps_ind (sep : str) (P : str -> Prop) :
  sep <> [] ->
  P [] ->
  (forall rest, P rest -> P (sep ++ rest)) ->
  (forall c s, startswith (c :: s) sep = false -> P s -> P (c :: s)) ->
  forall s, P s.
Proof.
  intros Hsep Hnil Hmatch Hstep s.
  remember (length s) as n eqn:Hn. revert s Hn.
  induction n as [n IH] using lt_wf_ind. intros s Hn.
  destruct s as [ | c s ]; [ exact Hnil | ].
  destruct (startswith (c :: s) sep) eqn:E.
  - apply startswith_iff in E. destruct E as [rest E]. rewrite E.
    apply Hmatch. apply (IH (length rest)); [ | reflexivity ].
    subst n. rewrite E, length_app. destruct sep; [ congruence | cbn; lia ].
  - apply Hstep; [ exact E | ]. apply (IH (length s)); [ subst n; cbn; lia | reflexivity ].
Qed.

Lemma join_cons (sep p : str) (parts : list str) :
  parts <> [] -> join sep (p :: parts) = p ++ sep ++ join sep parts.
Proof. destruct parts; [ congruence | reflexivity ]. Qed.

Lemma join_split_from (sep : str) :
  sep <> [] ->
  forall s cur, join sep (split_from sep cur 0 s) = cur ++ s.
Proof.
  intros Hsep s. pattern s. apply (split_steps_ind sep); [ exact Hsep | | | ].
  - intros cur. cbn [split_from join]. now rewrite app_nil_r.
  - intros rest IH cur. rewrite split_from_match by exact Hsep.
    rewrite join_cons by apply split_from_not_nil. now rewrite IH.
  - intros c s' E IH cur. rewrite split_from_no_match by exact E.
    rewrite IH, <- app_assoc. reflexivity.
Qed.

(** [sep.join(s.split(sep)) == s] for a separator that is not empty. *)
Lemma join_split (s sep : str) :
  sep <> [] -> join sep (split s sep) = s.
Proof. intros Hsep. apply (join_split_from sep Hsep s []). Qed.

Lemma occurs_startswith (sep s : str) :
  occurs sep s <-> exists i, (i <= length s)%nat /\ startswith (skipn i s) sep = true.
Proof.
  split.
  - intros (pre & post & ->). exists (length pre). split.
    + rewrite length_app. lia.
    + rewrite skipn_app, skipn_all, Nat.sub_diag. cbn [app skipn].
      apply startswith_iff. now exists post.
  - intros (i & Hi & H). apply startswith_iff in H. destruct H as [post H].
    exists (firstn i s), post. rewrite <- H. symmetry. apply firstn_skipn.
Qed.

Lemma piece_free_not_occurs (sep cur s : str) :
  sep <> [] -> piece_free sep cur s -> ~ occurs sep cur.
Proof.
  intros Hsep Hfree (pre & post & Hcur).
  assert (Hi : (length pre < length cur)%nat).
  { rewrite Hcur, !length_app. destruct sep; [ congruence | cbn; lia ]. }
  specialize (Hfree (length pre) Hi).
  rewrite Hcur, <- !app_assoc in Hfree.
  rewrite skipn_app, skipn_all, Nat.sub_diag in Hfree. cbn [app skipn] in Hfree.
  assert (E : startswith (sep ++ post ++ s) sep = true)
    by (apply startswith_iff; now exists (post ++ s)).
  congruence.
Qed.

Lemma split_from_pieces_free (sep : str) :
  sep <> [] ->
  forall s cur, piece_free sep cur s ->
    Forall (fun piece => ~ occurs sep piece) (split_from sep cur 0 s).
Proof.
  intros Hsep s. pattern s. apply (split_steps_ind sep); [ exact Hsep | | | ].
  - intros cur Hfree. repeat constructor.
    apply (piece_free_not_occurs sep cur [] Hsep Hfree).
  - intros rest IH cur Hfree. rewrite split_from_match by exact Hsep.
    constructor.
    + apply (piece_free_not_occurs sep cur (sep ++ rest) Hsep Hfree).
    + apply IH. intros i Hi. cbn in Hi. lia.
  - intros c s' E IH cur Hfree. rewrite split_from_no_match by exact E.
    apply IH. intros i Hi. rewrite <- app_assoc. cbn [app].
    rewrite length_app in Hi. cbn [length] in Hi.
    destruct (Nat.eq_dec i (length cur)) as [-> | Hne].
    + rewrite skipn_app, skipn_all, Nat.sub_diag. exact E.
    + apply Hfree. lia.
Qed.

(** The separator occurs in no piece of a [split]; there is at least one
    piece. *)
Lemma split_pieces_without_separator (s sep : str) :
  sep <> [] ->
  split s sep <> [] /\
  Forall (fun piece => ~ occurs sep piece) (split s sep).
Proof.
  intros Hsep. split; [ apply split_from_not_nil | ].
  apply split_from_pieces_free; [ exact Hsep | ].
  intros i Hi. cbn in Hi. lia.
Qed.

(** ** [strip] *)

Lemma blank_app (a b : str) : blank (a ++ b) <-> blank a /\ blank b.
Proof. unfold blank. rewrite forallb_app, andb_true_iff. reflexivity. Qed.

Lemma blank_rev (a : str) : blank (rev a) <-> blank a.
Proof.
  unfold blank. rewrite !forallb_forall.
  split; intros H c Hc; apply H; [ now apply in_rev in Hc | now apply in_rev ].
Qed.

Lemma lstrip_spec (s : str) :
  exists pre, s = pre ++ lstrip s /\ blank pre.
Proof.
  induction s as [ | c s (pre & Hs & Hpre) ]; [ now exists [] | ].
  cbn [lstrip]. destruct (isspace c) eqn:E.
  - exists (c :: pre). split; [ cbn; congruence | ].
    unfold blank in *. cbn [forallb]. now rewrite E, Hpre.
  - now exists [].
Qed.

Lemma lstrip_head (s : str) (c : char) (rest : str) :
  lstrip s = c :: rest -> isspace c = false.
Proof.
  induction s as [ | c0 s IH ]; [ discriminate | ].
  cbn [lstrip]. destruct (isspace c0) eqn:E; [ exact IH | ].
  intros H. injection H as <- _. exact E.
Qed.

Lemma lstrip_fixed (s : str) :
  (forall c rest, s = c :: rest -> isspace c = false) -> lstrip s = s.
Proof.
  destruct s as [ | c s ]; [ reflexivity | ]. intros H. cbn [lstrip].
  now rewrite (H c s eq_refl).
Qed.

Lemma lstrip_blank (s : str) : lstrip s = [] <-> blank s.
Proof.
  unfold blank. induction s as [ | c s IH ]; [ easy | ].
  cbn [lstrip forallb]. destruct (isspace c); [ exact IH | easy ].
Qed.

(** [strip] removes a run of white space at each end and nothing else;
    what is left neither starts nor ends with white space, stripping it
    again changes nothing, and it is empty exactly for a string of white
    space. *)
Lemma strip_facts (s : str) :
  (exists pre post, s = pre ++ strip s ++ post /\ blank pre /\ blank post) /\
  (forall c rest, strip s = c :: rest -> isspace c = false) /\
  (forall c rest, strip s = rest ++ [c] -> isspace c = false) /\
  strip (strip s) = strip s /\
  (strip s = [] <-> blank s).
Proof.
  unfold strip.
  destruct (lstrip_spec s) as (pre & Hs & Hpre).
  destruct (lstrip_spec (rev (lstrip s))) as (pre2 & Hm & Hpre2).
  set (t := lstrip (rev (lstrip s))) in *.
  assert (Hm' : lstrip s = rev t ++ rev pre2).
  { rewrite <- (rev_involutive (lstrip s)), Hm, rev_app_distr. reflexivity. }
  assert (Hfirst : forall c rest, rev t = c :: rest -> isspace c = false).
  { intros c rest H. apply (lstrip_head s c (rest ++ rev pre2)).
    rewrite Hm', H. reflexivity. }
  assert (Hlast : forall c rest, rev t = rest ++ [c] -> isspace c = false).
  { intros c rest H. apply (lstrip_head (rev (lstrip s)) c (rev rest)).
    fold t. rewrite <- (rev_involutive t), H, rev_app_distr. reflexivity. }
  split; [ | split; [ exact Hfirst | split; [ exact Hlast | split ] ] ].
  - exists pre, (rev pre2). split; [ | split; [ exact Hpre | now apply blank_rev ] ].
    rewrite Hs at 1. now rewrite Hm'.
  - rewrite (lstrip_fixed (rev t) Hfirst), rev_involutive.
    unfold t at 1. rewrite lstrip_fixed; [ reflexivity | ].
    intros c rest H. apply (lstrip_head (rev (lstrip s)) c rest). exact H.
  - split.
    + intros Ht. rewrite Hs. apply blank_app. split; [ exact Hpre | ].
      rewrite Hm', Ht. cbn [app]. now apply blank_rev.
    + intros Hblank. apply lstrip_blank in Hblank.
      unfold t. rewrite Hblank. reflexivity.
Qed.

(** ** The paragraphs of [generate_markdown] *)

Lemma occurs_infix (sub pre s post : str) :
  occurs sub s -> occurs sub (pre ++ s ++ post).
Proof.
  intros (a & b & ->). exists (pre ++ a), (b ++ post).
  now rewrite <- !app_assoc.
Qed.

Lemma split_from_chars (sep : str) :
  sep <> [] ->
  forall s cur piece c,
    In piece (split_from sep cur 0 s) -> In c piece -> In c (cur ++ s).
Proof.
  intros Hsep s. pattern s. apply (split_steps_ind sep); [ exact Hsep | | | ].
  - intros cur piece c [<- | []] Hc. now rewrite app_nil_r.
  - intros rest IH cur piece c. rewrite split_from_match by exact Hsep.
    intros [<- | Hin] Hc.
    + apply in_or_app. now left.
    + specialize (IH [] piece c Hin Hc). cbn [app] in IH.
      apply in_or_app. right. apply in_or_app. now right.
  - intros c0 s' E IH cur piece c. rewrite split_from_no_match by exact E.
    intros Hin Hc. specialize (IH _ piece c Hin Hc).
    now rewrite <- app_assoc in IH.
Qed.

Lemma blank_join (sep : str) (parts : list str) :
  blank sep -> Forall blank parts -> blank (join sep parts).
Proof.
  intros Hsep. induction 1 as [ | p parts Hp Hparts IH ]; [ reflexivity | ].
  destruct parts as [ | q parts ]; [ exact Hp | ].
  rewrite join_cons by discriminate.
  apply blank_app. split; [ exact Hp | ]. apply blank_app. split; assumption.
Qed.

Lemma filter_none {A : Type} (f : A -> bool) (l : list A) :
  (forall x, In x l -> f x = false) -> filter f l = [].
Proof.
  induction l as [ | x l IH ]; intros H; [ reflexivity | ].
  cbn [filter]. rewrite (H x (or_introl eq_refl)). apply IH.
  intros y Hy. apply H. now right.
Qed.

(** The paragraphs of a text are none exactly when the text is white
    space. *)
Lemma paragraphs_nil_iff (text_ : str) : paragraphs text_ = [] <-> blank text_.
Proof.
  unfold paragraphs. split.
  - intros Hnil. apply map_eq_nil in Hnil.
    pose proof (join_split_from [nl; nl] ltac:(discriminate) text_ []) as Hjoin.
    cbn [app] in Hjoin. rewrite <- Hjoin. apply blank_join; [ reflexivity | ].
    apply Forall_forall. intros piece Hpiece.
    apply (proj2 (proj2 (proj2 (proj2 (strip_facts piece))))).
    destruct (strip piece) eqn:E; [ reflexivity | ].
    assert (Hin : In piece
                    (filter (fun p => match strip p with [] => false | _ :: _ => true end)
                       (split text_ [nl; nl])))
      by (apply filter_In; split; [ exact Hpiece | now rewrite E ]).
    unfold split in Hin. unfold split in Hnil. rewrite Hnil in Hin. destruct Hin.
  - intros Hblank.
    assert (Hnone : filter (fun p => match strip p with [] => false | _ :: _ => true end)
                      (split text_ [nl; nl]) = []).
    { apply filter_none. intros piece Hpiece.
      assert (Hb : blank piece).
      { apply forallb_forall. intros c Hc.
        pose proof (split_from_chars [nl; nl] ltac:(discriminate) text_ [] piece c Hpiece Hc)
          as Hin.
        cbn [app] in Hin. unfold blank in Hblank.
        rewrite forallb_forall in Hblank. now apply Hblank. }
      apply (proj2 (proj2 (proj2 (proj2 (strip_facts piece))))) in Hb. now rewrite Hb. }
    now rewrite Hnone.
Qed.

Lemma endswith_app (s suffix : str) : endswith (s ++ suffix) suffix = true.
Proof. unfold endswith. rewrite rev_app_distr. apply startswith_app. Qed.

Lemma concat_lines_join (lines : list str) :
  lines <> [] ->
  concat (map (fun line => line ++ [nl]) lines) = join [nl] lines ++ [nl].
Proof.
  induction lines as [ | l lines IH ]; [ congruence | intros _ ].
  destruct lines as [ | l' lines ].
  - cbn. now rewrite app_nil_r.
  - rewrite join_cons by discriminate. cbn [map concat] in *.
    rewrite IH by discriminate. now rewrite <- !app_assoc.
Qed.

Lemma join_space_split_from (s : str) :
  forall cur, join [space] (split_from [nl] cur 0 s) = cur ++ map newline_to_space s.
Proof.
  pattern s. apply (split_steps_ind [nl]); [ discriminate | | | ].
  - intros cur. cbn. now rewrite app_nil_r.
  - intros rest IH cur. rewrite split_from_match by discriminate.
    rewrite join_cons by apply split_from_not_nil. rewrite IH. reflexivity.
  - intros c s' E IH cur. rewrite split_from_no_match by exact E.
    rewrite IH, <- app_assoc. cbn [app map]. unfold newline_to_space at 2.
    cbn [startswith] in E. rewrite andb_true_r in E.
    rewrite N.eqb_sym, E. reflexivity.
Qed.

Section GenerateMarkdownExtras.

Variables ch_isupper ch_islower ch_istitle : char -> bool.

(** What an iteration appends is the paragraph itself, with its
    newlines kept or turned into spaces, after nothing or a heading
    marker, and before a blank line. *)
Lemma paragraph_body_shape (markdown paragraph : str) :
  exists marker body,
    paragraph_body ch_isupper ch_islower ch_istitle markdown paragraph
    = markdown ++ marker ++ body ++ [nl; nl]
    /\ (marker = [] \/ marker = lit "## " \/ marker = lit "### ")
    /\ (body = paragraph \/ body = map newline_to_space paragraph).
Proof.
  unfold paragraph_body. cbv zeta.
  destruct ((len (split paragraph [nl]) =? 1) && (len paragraph <? 100)).
  - destruct (isupper ch_isupper ch_islower ch_istitle paragraph
              || endswith paragraph [colon] || endswith paragraph [dot]).
    + destruct (len paragraph <? 50).
      * exists (lit "## "), paragraph. repeat split; auto.
      * exists (lit "### "), paragraph. repeat split; auto.
    + exists [], paragraph. repeat split; auto.
  - destruct (existsb _ (split paragraph [nl])).
    + exists [], paragraph. split; [ | auto ].
      rewrite fold_left_append_lines, concat_lines_join by apply split_from_not_nil.
      unfold split. rewrite (join_split_from [nl] ltac:(discriminate) paragraph []).
      cbn [app]. now rewrite <- !app_assoc.
    + exists [], (map newline_to_space paragraph). split; [ | auto ].
      unfold split. rewrite join_space_split_from. reflexivity.
Qed.

(** X1: every paragraph is appended as its own characters in order, the
    newlines kept or turned into spaces, after nothing or one of the two
    heading markers and before a blank line; so the output is the header
    followed by one such block per paragraph and it ends with a blank
    line. *)
Theorem generate_markdown_blocks
  (text_ title : str) (page_count : Z) (pdf_filename processed_date : str) :
  exists blocks,
    generate_markdown ch_isupper ch_islower ch_istitle
      text_ title page_count pdf_filename processed_date
    = header title page_count pdf_filename processed_date ++ concat blocks
    /\ Forall2
         (fun paragraph block =>
            exists marker body,
              block = marker ++ body ++ [nl; nl]
              /\ (marker = [] \/ marker = lit "## " \/ marker = lit "### ")
              /\ (body = paragraph \/ body = map newline_to_space paragraph))
         (paragraphs text_) blocks
    /\ endswith
         (generate_markdown ch_isupper ch_islower ch_istitle
            text_ title page_count pdf_filename processed_date)
         [nl; nl] = true.
Proof.
  exists (map (paragraph_body ch_isupper ch_islower ch_istitle []) (paragraphs text_)).
  split; [ apply generate_markdown_paragraphs | ].
  assert (Hblocks :
    Forall2
      (fun paragraph block =>
         exists marker body,
           block = marker ++ body ++ [nl; nl]
           /\ (marker = [] \/ marker = lit "## " \/ marker = lit "### ")
           /\ (body = paragraph \/ body = map newline_to_space paragraph))
      (paragraphs text_)
      (map (paragraph_body ch_isupper ch_islower ch_istitle []) (paragraphs text_))).
  { induction (paragraphs text_) as [ | p ps IH ]; [ constructor | ].
    cbn [map]. constructor; [ | exact IH ].
    destruct (paragraph_body_shape [] p) as (marker & body & H & Hm & Hb).
    exists marker, body. now rewrite H. }
  split; [ exact Hblocks | ].
  rewrite generate_markdown_paragraphs.
  remember (map _ (paragraphs text_)) as blocks eqn:E. clear E.
  revert Hblocks.
  induction blocks as [ | last_block front _ ] using rev_ind; intros Hblocks.
  - cbn [concat]. rewrite app_nil_r. unfold header.
    rewrite !app_assoc. apply endswith_app.
  - apply Forall2_app_inv_r in Hblocks.
    destruct Hblocks as (ps1 & ps2 & _ & Hlast & _).
    inversion Hlast as [ | p b ps bs (marker & body & -> & _) _ ]; subst.
    rewrite concat_app. cbn [concat]. rewrite app_nil_r.
    rewrite !app_assoc. apply endswith_app.
Qed.

(** X2: a text of white space only, the empty text included, is rendered
    as the header alone; any other text adds at least one block. *)
Theorem generate_markdown_blank_text
  (text_ title : str) (page_count : Z) (pdf_filename processed_date : str) :
  blank text_
  <-> generate_markdown ch_isupper ch_islower ch_istitle
        text_ title page_count pdf_filename processed_date
      = header title page_count pdf_filename processed_date.
Proof.
  rewrite generate_markdown_paragraphs, <- paragraphs_nil_iff. split.
  - intros ->. cbn [map concat]. apply app_nil_r.
  - intros H.
    rewrite <- (app_nil_r (header _ _ _ _)) in H at 2.
    apply app_inv_head in H.
    destruct (paragraphs text_) as [ | p ps ]; [ reflexivity | exfalso ].
    cbn [map concat] in H.
    destruct (paragraph_body_shape [] p) as (marker & body & Hp & _).
    rewrite Hp in H. apply (f_equal (@length char)) in H.
    rewrite !length_app in H. cbn in H. lia.
Qed.

(** X3: a paragraph of several lines, or of one line of 100 characters or
    more, with a list line is appended unchanged, followed by a blank
    line. *)
Theorem list_paragraph_verbatim (markdown paragraph : str) :
  len (split paragraph [nl]) <> 1 \/ 100 <= len paragraph ->
  (exists line, In line (split paragraph [nl]) /\ is_list_line line) ->
  paragraph_body ch_isupper ch_islower ch_istitle markdown paragraph
  = markdown ++ paragraph ++ [nl; nl].
Proof.
  intros Hcase (line & Hin & Hlist).
  unfold paragraph_body. cbv zeta.
  assert (E : (len (split paragraph [nl]) =? 1) && (len paragraph <? 100) = false).
  { apply andb_false_iff. destruct Hcase as [H | H];
      [ left; now apply Z.eqb_neq | right; now apply Z.ltb_ge ]. }
  rewrite E.
  assert (Hany : existsb (fun line => startswith_any (strip line) list_markers)
                   (split paragraph [nl]) = true).
  { apply existsb_exists. exists line. split; [ exact Hin | ].
    now apply is_list_line_markers. }
  rewrite Hany.
  rewrite fold_left_append_lines, concat_lines_join by apply split_from_not_nil.
  unfold split. rewrite (join_split_from [nl] ltac:(discriminate) paragraph []).
  cbn [app]. now rewrite <- !app_assoc.
Qed.

(** X4: a paragraph of several lines without a list line is appended
    with every newline turned into a space, so on one line and with the
    length it had, followed by a blank line. *)
Theorem flowing_paragraph_newlines (markdown paragraph : str) :
  len (split paragraph [nl]) <> 1 ->
  ~ (exists line, In line (split paragraph [nl]) /\ is_list_line line) ->
  paragraph_body ch_isupper ch_islower ch_istitle markdown paragraph
  = markdown ++ map newline_to_space paragraph ++ [nl; nl]
  /\ ~ In nl (map newline_to_space paragraph)
  /\ length (map newline_to_space paragraph) = length paragraph.
Proof.
  intros Hmany Hnone. split; [ | split; [ | apply length_map ] ].
  - unfold paragraph_body. cbv zeta.
    destruct (len (split paragraph [nl]) =? 1) eqn:E1;
      [ apply Z.eqb_eq in E1; contradiction | ].
    cbn [andb].
    destruct (existsb (fun line => startswith_any (strip line) list_markers)
                (split paragraph [nl])) eqn:E.
    + exfalso. apply Hnone. apply existsb_exists in E.
      destruct E as (line & Hin & H). exists line. split; [ exact Hin | ].
      now apply is_list_line_markers.
    + unfold split. rewrite join_space_split_from. reflexivity.
  - intros Hin. apply in_map_iff in Hin. destruct Hin as (c & Hc & _).
    unfold newline_to_space in Hc. destruct (c =? nl)%N eqn:E.
    + discriminate Hc.
    + apply N.eqb_neq in E. congruence.
Qed.

(** X5: every paragraph is stripped and not empty, and holds no blank
    line. *)
Theorem paragraphs_invariant (text_ paragraph : str) :
  In paragraph (paragraphs text_) ->
  paragraph <> [] /\
  strip paragraph = paragraph /\
  (forall c rest, paragraph = c :: rest -> isspace c = false) /\
  (forall c rest, paragraph = rest ++ [c] -> isspace c = false) /\
  ~ occurs [nl; nl] paragraph.
Proof.
  unfold paragraphs. intros Hin. apply in_map_iff in Hin.
  destruct Hin as (piece & <- & Hpiece). apply filter_In in Hpiece.
  destruct Hpiece as [Hpiece Hkeep].
  destruct (strip_facts piece) as ((pre & post & Hsplit & _) & Hfirst & Hlast & Hidem & _).
  split; [ destruct (strip piece); [ discriminate Hkeep | discriminate ] | ].
  split; [ exact Hidem | ]. split; [ exact Hfirst | ]. split; [ exact Hlast | ].
  intros Hocc.
  pose proof (split_from_pieces_free [nl; nl] ltac:(discriminate) text_ []
                ltac:(intros i Hi; cbn in Hi; lia)) as Hfree.
  rewrite Forall_forall in Hfree. apply (Hfree piece Hpiece).
  rewrite Hsplit. now apply occurs_infix.
Qed.

End GenerateMarkdownExtras.

(** ** More on the chunking loop *)

Lemma firstn_add_skipn {A : Type} (a b : nat) (l : list A) :
  firstn (a + b) l = firstn a l ++ firstn b (skipn a l).
Proof.
  revert l. induction a as [ | a IH ]; intros l; [ reflexivity | ].
  destruct l as [ | x l ]; [ cbn [skipn]; now rewrite !firstn_nil | ].
  cbn [Nat.add firstn skipn app]. now rewrite IH.
Qed.

(** Cutting a list into consecutive runs of [st] elements and putting
    the runs together gives the start of the list. *)
Lemma concat_runs {A : Type} (st n : nat) (l : list A) :
  concat (map (fun k => firstn st (skipn (k * st) l)) (seq 0 n)) = firstn (n * st) l.
Proof.
  induction n as [ | n IH ]; [ reflexivity | ].
  rewrite seq_S, map_app, concat_app, IH. cbn [map concat Nat.add].
  rewrite app_nil_r. replace (S n * st)%nat with (n * st + st)%nat by lia.
  symmetry. apply firstn_add_skipn.
Qed.

Section ChunkingExtras.

Variables (T s : str) (cs ov : Z).
Hypothesis Hvalid : 0 <= ov < cs.

Lemma chunk_at_text (k : nat) :
  (k < Z.to_nat (range_length 0 (len T) (cs - ov)))%nat ->
  text (chunk_at T s cs ov k)
  = firstn (Z.to_nat cs) (skipn (k * Z.to_nat (cs - ov)) T).
Proof.
  intros Hk. apply range_offsets_bound in Hk; [ | lia | apply len_nonneg ].
  unfold chunk_at. cbn [text].
  assert (0 <= Z.of_nat k * (cs - ov)) by nia.
  rewrite slice_inside by lia. f_equal. f_equal.
  rewrite Z.add_0_l, Z2Nat.inj_mul, Nat2Z.id by lia. reflexivity.
Qed.

Lemma count_covers :
  (length T <= Z.to_nat (range_length 0 (len T) (cs - ov)) * Z.to_nat (cs - ov))%nat.
Proof.
  set (count := Z.to_nat (range_length 0 (len T) (cs - ov))).
  destruct (Nat.le_gt_cases (length T) (count * Z.to_nat (cs - ov))) as [ H | H ];
    [ exact H | exfalso ].
  assert (Hlt : Z.of_nat count * (cs - ov) < len T).
  { unfold len. apply Nat2Z.inj_lt in H.
    rewrite Nat2Z.inj_mul, Z2Nat.id in H by lia. exact H. }
  apply range_offsets_bound in Hlt; [ | lia | apply len_nonneg ].
  fold count in Hlt. lia.
Qed.

Lemma chunks_nth_error (out : list Chunk) (k : nat) (c : Chunk) :
  ProcessPdfs.chunks T s cs ov = Ok out ->
  nth_error out k = Some c ->
  (k < Z.to_nat (range_length 0 (len T) (cs - ov)))%nat
  /\ c = chunk_at T s cs ov k
  /\ length out = Z.to_nat (range_length 0 (len T) (cs - ov)).
Proof.
  rewrite chunks_closed_form by lia. intros Hout Hk. injection Hout as <-.
  rewrite nth_error_map_seq in Hk.
  destruct (Nat.ltb_spec k (Z.to_nat (range_length 0 (len T) (cs - ov))));
    [ | discriminate Hk ].
  injection Hk as <-. rewrite length_map, length_seq. auto.
Qed.

(** X6: the text is got back from the chunks: the first
    [chunk_size - overlap] characters of every chunk, put together in
    order, are the text. *)
Theorem chunks_reassemble (out : list Chunk) :
  ProcessPdfs.chunks T s cs ov = Ok out ->
  concat (map (fun c => firstn (Z.to_nat (cs - ov)) (text c)) out) = T.
Proof.
  rewrite chunks_closed_form by lia. intros Hout. injection Hout as <-.
  rewrite map_map.
  rewrite (map_ext_in _
             (fun k => firstn (Z.to_nat (cs - ov)) (skipn (k * Z.to_nat (cs - ov)) T))).
  - rewrite concat_runs. apply firstn_all2. apply count_covers.
  - intros k Hk. apply in_seq in Hk. rewrite chunk_at_text by lia.
    rewrite firstn_firstn. f_equal. lia.
Qed.

(** X7: two chunks in a row overlap: what a chunk holds from position
    [chunk_size - overlap] on is the first [overlap] characters of the
    next chunk; a next chunk of at most [overlap] characters is
    therefore a suffix of the chunk before it and holds no text of its
    own. *)
Theorem chunks_overlap (out : list Chunk) (k : nat) (c c' : Chunk) :
  ProcessPdfs.chunks T s cs ov = Ok out ->
  nth_error out k = Some c ->
  nth_error out (S k) = Some c' ->
  skipn (Z.to_nat (cs - ov)) (text c) = firstn (Z.to_nat ov) (text c')
  /\ (len (text c') <= ov -> skipn (Z.to_nat (cs - ov)) (text c) = text c').
Proof.
  intros Hout Hk Hk'.
  assert (Hov : skipn (Z.to_nat (cs - ov)) (text c) = firstn (Z.to_nat ov) (text c')).
  { destruct (chunks_nth_error out k c Hout Hk) as (Hlt & -> & _).
    destruct (chunks_nth_error out (S k) c' Hout Hk') as (Hlt' & -> & _).
    rewrite !chunk_at_text by assumption.
    rewrite skipn_firstn_comm, firstn_firstn, skipn_skipn.
    f_equal; lia. }
  split; [ exact Hov | ].
  intros Hshort. rewrite Hov. apply firstn_all2. unfold len in Hshort. lia.
Qed.

(** X8: the chunk at position [k] has [chunk_size] characters, or what
    is left of the text from its offset when that is less; its
    [chunk_index] is below its [total_chunks], which is the number of
    chunks or one more; the last chunk runs to the end of the text. *)
Theorem chunks_sizes_and_counts (out : list Chunk) (k : nat) (c : Chunk) :
  ProcessPdfs.chunks T s cs ov = Ok out ->
  nth_error out k = Some c ->
  len (text c) = Z.min cs (len T - Z.of_nat k * (cs - ov)) /\
  0 <= chunk_index (metadata c) < total_chunks (metadata c) /\
  (total_chunks (metadata c) = len out \/ total_chunks (metadata c) = len out + 1) /\
  (S k = length out -> text c = skipn (k * Z.to_nat (cs - ov)) T).
Proof.
  intros Hout Hk.
  destruct (chunks_nth_error out k c Hout Hk) as (Hlt & -> & Hcount).
  pose proof (len_nonneg T) as HT.
  pose proof Hlt as Hoff. apply range_offsets_bound in Hoff; [ | lia | lia ].
  assert (Hk0 : 0 <= Z.of_nat k * (cs - ov)) by nia.
  assert (Hlen : len out = (len T + (cs - ov) - 1) / (cs - ov)).
  { unfold len at 1. rewrite Hcount, range_length_positive_step by lia.
    rewrite Z2Nat.id; [ reflexivity | apply Z.div_pos; lia ]. }
  pose proof (Z.div_mod (len T) (cs - ov) ltac:(lia)) as Hdm.
  pose proof (Z.mod_pos_bound (len T) (cs - ov) ltac:(lia)) as Hmod.
  pose proof (Z.div_mod (len T + (cs - ov) - 1) (cs - ov) ltac:(lia)) as Hdm'.
  pose proof (Z.mod_pos_bound (len T + (cs - ov) - 1) (cs - ov) ltac:(lia)) as Hmod'.
  assert (Hk1 : Z.of_nat k < len out) by (unfold len at 1; lia).
  split; [ | split; [ | split ] ].
  - unfold chunk_at. cbn [text]. rewrite slice_inside_length by lia. lia.
  - unfold chunk_at. cbn [metadata chunk_index total_chunks]. rewrite Hlen in Hk1. nia.
  - unfold chunk_at. cbn [metadata total_chunks]. rewrite Hlen. nia.
  - intros Hlast. rewrite chunk_at_text by assumption.
    apply firstn_all2. rewrite length_skipn.
    pose proof count_covers as Hcov. rewrite <- Hcount, <- Hlast in Hcov.
    assert (Z.to_nat cs = Z.to_nat (cs - ov) + Z.to_nat ov)%nat by lia. nia.
Qed.

End ChunkingExtras.

(** ** More on the collection builder *)

Lemma draws_add {entropy : Type} (uuid4 : entropy -> str * entropy) (a b : nat) (st : entropy) :
  draws uuid4 (a + b) st
  = (fst (draws uuid4 a st) ++ fst (draws uuid4 b (snd (draws uuid4 a st))),
     snd (draws uuid4 b (snd (draws uuid4 a st)))).
Proof.
  revert st. induction a as [ | a IH ]; intros st.
  - cbn. now destruct (draws uuid4 b st).
  - cbn [Nat.add draws]. destruct (uuid4 st) as [u st1]. rewrite IH.
    destruct (draws uuid4 a st1) as [us st2]. reflexivity.
Qed.

Lemma concat_filter_cons {A : Type} (key : A -> str) (x : A) (l : list A) (keys : list str) :
  NoDup keys -> In (key x) keys ->
  Permutation
    (concat (map (fun s => filter (fun y => str_eqb (key y) s) (x :: l)) keys))
    (x :: concat (map (fun s => filter (fun y => str_eqb (key y) s) l) keys)).
Proof.
  induction keys as [ | s keys IH ]; intros Hnd Hin; [ destruct Hin | ].
  inversion Hnd as [ | s' keys' Hnotin Hnd' ]; subst.
  cbn [map concat].
  assert (Hhead : filter (fun y => str_eqb (key y) s) (x :: l)
                  = if str_eqb (key x) s
                    then x :: filter (fun y => str_eqb (key y) s) l
                    else filter (fun y => str_eqb (key y) s) l) by reflexivity.
  rewrite Hhead. clear Hhead.
  destruct (str_eqb (key x) s) eqn:E.
  - apply str_eqb_eq in E. subst s. cbn [app]. apply perm_skip.
    apply Permutation_app_head.
    assert (Hsame : map (fun s => filter (fun y => str_eqb (key y) s) (x :: l)) keys
                    = map (fun s => filter (fun y => str_eqb (key y) s) l) keys).
    { apply map_ext_in. intros s Hs. cbn [filter].
      destruct (str_eqb (key x) s) eqn:E; [ | reflexivity ].
      apply str_eqb_eq in E. congruence. }
    now rewrite Hsame.
  - apply str_eqb_neq in E. destruct Hin as [Heq | Hin]; [ congruence | ].
    etransitivity; [ apply Permutation_app_head, (IH Hnd' Hin) | ].
    symmetry. apply Permutation_middle.
Qed.

(** The groups of the distinct keys of a list hold the elements of the
    list, each once. *)
Lemma concat_groups_permutation {A : Type} (key : A -> str) (keys : list str) (l : list A) :
  NoDup keys -> (forall x, In x l -> In (key x) keys) ->
  Permutation (concat (map (fun s => filter (fun y => str_eqb (key y) s) l) keys)) l.
Proof.
  intros Hnd. induction l as [ | x l IH ]; intros Hcover.
  - cbn [filter].
    assert (Hnil : forall ks : list str, concat (map (fun _ => @nil A) ks) = [])
      by (induction ks; auto).
    rewrite Hnil. constructor.
  - etransitivity;
      [ apply (concat_filter_cons key x l keys Hnd (Hcover x (or_introl eq_refl))) | ].
    apply perm_skip. apply IH. intros y Hy. apply Hcover. now right.
Qed.

Section PrepareExtras.

Variable entropy : Type.
Variable uuid4 : entropy -> str * entropy.

(** What the builder writes, document by document. *)
Lemma prepare_written
  (chunk_files : list (option (list Chunk))) (collection_name : str) (st : entropy) :
  exists docs st',
    prepare_openwebui_collection entropy uuid4 chunk_files collection_name st
    = (match load_all chunk_files with
       | [] => None
       | _ :: _ => Some {| name := collection_name; documents := docs |}
       end, st')
    /\ Forall2 document_of
         (map (fun s => (s, chunks_of_source s (load_all chunk_files)))
            (distinct_sources (map source_of (load_all chunk_files))))
         docs.
Proof.
  unfold prepare_openwebui_collection.
  destruct (load_all chunk_files) as [ | c l ] eqn:E.
  - exists [], st. split; [ reflexivity | constructor ].
  - destruct (documents_loop entropy uuid4 (group_by_source (c :: l)) st)
      as (docs & st' & Hloop & Hall).
    exists docs, st'. unfold bind, ret. rewrite Hloop. split; [ reflexivity | ].
    now rewrite group_by_source_spec in Hall.
Qed.

Lemma documents_contents (all_chunks : list Chunk) (keys : list str) (docs : list Document.t) :
  Forall2 document_of (map (fun s => (s, chunks_of_source s all_chunks)) keys) docs ->
  concat (map (fun d => map ContentChunk.content (Document.content_chunks d)) docs)
  = map text (concat (map (fun s => chunks_of_source s all_chunks) keys)).
Proof.
  revert docs. induction keys as [ | s keys IH ]; intros docs Hall.
  - inversion Hall. reflexivity.
  - inversion Hall as [ | item d items docs' Hd Hrest ]; subst.
    cbn [map concat]. rewrite map_app, (IH _ Hrest). f_equal.
    destruct (document_of_content _ _ Hd) as (_ & Hc & _). exact Hc.
Qed.

(** X9: the builder only regroups: the contents of the content chunks of
    all the documents are the texts of the chunks read, each once, and no
    document is without content chunks. *)
Theorem assembler_keeps_every_chunk
  (chunk_files : list (option (list Chunk))) (collection_name : str) (st : entropy) :
  let written :=
    fst (prepare_openwebui_collection entropy uuid4 chunk_files collection_name st) in
  Permutation
    (concat (map (fun d => map ContentChunk.content (Document.content_chunks d))
               (documents_written written)))
    (map text (load_all chunk_files))
  /\ Forall (fun d => Document.content_chunks d <> []) (documents_written written).
Proof.
  destruct (prepare_written chunk_files collection_name st) as (docs & st' & Hrun & Hall).
  cbv zeta. rewrite Hrun. cbn [fst].
  assert (Hdocs : documents_written
                    (match load_all chunk_files with
                     | [] => None
                     | _ :: _ => Some {| name := collection_name; documents := docs |}
                     end) = docs).
  { destruct (load_all chunk_files); [ | reflexivity ].
    cbn in Hall. inversion Hall. reflexivity. }
  rewrite Hdocs. split.
  - rewrite (documents_contents _ _ _ Hall). apply Permutation_map.
    apply (concat_groups_permutation source_of).
    + apply distinct_sources_NoDup.
    + intros c Hc. apply distinct_sources_In. now apply in_map.
  - apply Forall_forall. intros d Hd.
    apply In_nth_error in Hd. destruct Hd as [k Hk].
    destruct (Forall2_nth_error_r _ _ _ Hall k d Hk) as (item & Hitem & Hof).
    rewrite nth_error_map in Hitem.
    destruct (nth_error (distinct_sources (map source_of (load_all chunk_files))) k)
      as [ s | ] eqn:Es; [ | discriminate Hitem ].
    injection Hitem as <-.
    destruct (document_of_content _ _ Hof) as (Hlen & _). cbn [snd] in Hlen.
    apply nth_error_In in Es. apply distinct_sources_In, in_map_iff in Es.
    destruct Es as (c & Hsrc & Hc).
    assert (Hin : In c (chunks_of_source s (load_all chunk_files))).
    { apply filter_In. split; [ exact Hc | now apply str_eqb_eq ]. }
    intros Hnil. rewrite Hnil in Hlen. cbn in Hlen.
    destruct (chunks_of_source s (load_all chunk_files)); [ destruct Hin | discriminate Hlen ].
Qed.

End PrepareExtras.

Section PrepareIds.

Variable entropy : Type.
Variable uuid4 : entropy -> str * entropy.

Lemma draws_S (n : nat) (st : entropy) :
  draws uuid4 (S n) st
  = (fst (uuid4 st) :: fst (draws uuid4 n (snd (uuid4 st))),
     snd (draws uuid4 n (snd (uuid4 st)))).
Proof.
  cbn [draws]. destruct (uuid4 st) as [u st1]. cbn [fst snd].
  now destruct (draws uuid4 n st1).
Qed.

Lemma content_chunk_body_eq (doc_id source_ : str) (doc_chunks : list Chunk)
  (acc : list ContentChunk.t) (i : Z) (chunk : Chunk) (st : entropy) :
  content_chunk_body entropy uuid4 doc_id source_ doc_chunks acc (i, chunk) st
  = (acc ++
     [ {| ContentChunk.id := fst (uuid4 st);
          ContentChunk.doc_id := doc_id;
          ContentChunk.content := text chunk;
          ContentChunk.metadata :=
            {| source := source_;
               chunk_index := i;
               total_chunks := len doc_chunks |} |} ],
     snd (uuid4 st)).
Proof.
  unfold content_chunk_body, bind, ret. now destruct (uuid4 st).
Qed.

Lemma content_chunks_loop_ids (doc_id source_ : str) (doc_chunks : list Chunk)
  (l : list (Z * Chunk)) :
  forall acc st,
    exists new,
      for_each entropy (content_chunk_body entropy uuid4 doc_id source_ doc_chunks) l acc st
      = (acc ++ new, snd (draws uuid4 (length l) st))
      /\ map ContentChunk.id new = fst (draws uuid4 (length l) st).
Proof.
  induction l as [ | [i chunk] l IH ]; intros acc st.
  - exists []. split; [ cbn; unfold ret; now rewrite app_nil_r | reflexivity ].
  - cbn [for_each length]. unfold bind at 1.
    rewrite content_chunk_body_eq, draws_S. cbn [fst snd].
    destruct (IH (acc ++
                  [ {| ContentChunk.id := fst (uuid4 st);
                       ContentChunk.doc_id := doc_id;
                       ContentChunk.content := text chunk;
                       ContentChunk.metadata :=
                         {| source := source_;
                            chunk_index := i;
                            total_chunks := len doc_chunks |} |} ]) (snd (uuid4 st)))
      as (new & Hrun & Hids).
    eexists (_ :: new). split.
    + rewrite Hrun, <- app_assoc. reflexivity.
    + cbn [map ContentChunk.id]. now rewrite Hids.
Qed.

Lemma document_body_ids (acc : list Document.t) (item : str * list Chunk) (st : entropy) :
  exists d,
    document_body entropy uuid4 acc item st
    = (acc ++ [d], snd (draws uuid4 (S (length (snd item))) st))
    /\ Document.id d :: map ContentChunk.id (Document.content_chunks d)
       = fst (draws uuid4 (S (length (snd item))) st).
Proof.
  destruct item as [source_ doc_chunks]. cbn [snd]. rewrite draws_S. cbn [fst snd].
  unfold document_body, bind, ret. destruct (uuid4 st) as [doc_id st1]. cbn [fst snd].
  destruct (content_chunks_loop_ids doc_id source_ doc_chunks (enumerate doc_chunks) [] st1)
    as (ccs & Hrun & Hids).
  rewrite enumerate_length in Hrun, Hids. rewrite Hrun. cbn [app].
  eexists. split; [ reflexivity | ].
  cbn [Document.id Document.content_chunks]. now rewrite Hids.
Qed.

Lemma documents_loop_ids (items : Dict.t (list Chunk)) :
  forall acc st,
    exists docs,
      for_each entropy (document_body entropy uuid4) items acc st
      = (acc ++ docs, snd (draws uuid4 (draw_count items) st))
      /\ collection_ids docs = fst (draws uuid4 (draw_count items) st).
Proof.
  induction items as [ | item items IH ]; intros acc st.
  - exists []. split; [ cbn; unfold ret; now rewrite app_nil_r | reflexivity ].
  - cbn [for_each draw_count fold_right]. fold (draw_count items).
    unfold bind. destruct (document_body_ids acc item st) as (d & Hd & Hid).
    rewrite Hd. destruct (IH (acc ++ [d]) (snd (draws uuid4 (S (length (snd item))) st)))
      as (docs & Hrun & Hids).
    exists (d :: docs). rewrite Hrun, draws_add. cbn [fst snd].
    split; [ now rewrite <- app_assoc | ].
    unfold collection_ids in *. cbn [map concat]. now rewrite Hid, Hids.
Qed.

Lemma draw_count_groups (all_chunks : list Chunk) :
  draw_count (group_by_source all_chunks)
  = (length (distinct_sources (map source_of all_chunks)) + length all_chunks)%nat.
Proof.
  rewrite group_by_source_spec.
  rewrite <- (Permutation_length
                (concat_groups_permutation source_of
                   (distinct_sources (map source_of all_chunks)) all_chunks
                   (distinct_sources_NoDup _)
                   (fun c Hc => proj2 (distinct_sources_In _ _) (in_map source_of _ _ Hc)))).
  fold (chunks_of_source). 
  induction (distinct_sources (map source_of all_chunks)) as [ | s keys IH ]; [ reflexivity | ].
  cbn [map draw_count fold_right snd concat length]. fold (draw_count
    (map (fun s0 => (s0, chunks_of_source s0 all_chunks)) keys)).
  rewrite IH, length_app. unfold chunks_of_source. lia.
Qed.

(** X10: the ids of the collection are the UUIDs drawn, in the order of
    the draws: for each document its id, then the ids of its content
    chunks; one UUID is drawn per document and per chunk and no other; so
    when the values drawn differ from one another, so do all the ids. *)
Theorem assembler_ids_are_the_draws
  (chunk_files : list (option (list Chunk))) (collection_name : str) (st : entropy) :
  let run := prepare_openwebui_collection entropy uuid4 chunk_files collection_name st in
  let docs := documents_written (fst run) in
  let n := (length docs + length (load_all chunk_files))%nat in
  collection_ids docs = fst (draws uuid4 n st)
  /\ snd run = snd (draws uuid4 n st)
  /\ (NoDup (fst (draws uuid4 n st)) -> NoDup (collection_ids docs)).
Proof.
  cbv zeta. unfold prepare_openwebui_collection.
  destruct (load_all chunk_files) as [ | c l ] eqn:E.
  - cbn. repeat split. constructor.
  - destruct (documents_loop_ids (group_by_source (c :: l)) [] st) as (docs & Hrun & Hids).
    unfold bind, ret. rewrite Hrun. cbn [app fst snd documents_written documents].
    assert (Hn : (length docs + length (c :: l))%nat = draw_count (group_by_source (c :: l))).
    { rewrite draw_count_groups. f_equal.
      destruct (documents_loop entropy uuid4 (group_by_source (c :: l)) st)
        as (docs' & st' & Hloop & Hall).
      rewrite Hrun in Hloop. injection Hloop as <- _.
      apply Forall2_length in Hall. rewrite group_by_source_spec, length_map in Hall.
      congruence. }
    rewrite Hn. split; [ exact Hids | split; [ reflexivity | ] ].
    now rewrite Hids.
Qed.

End PrepareIds.

(** ** The chunking loop followed by the collection builder *)

Lemma distinct_sources_one (s : str) (sources : list str) :
  sources <> [] -> (forall s', In s' sources -> s' = s) -> distinct_sources sources = [s].
Proof.
  intros Hne Hall.
  pose proof (distinct_sources_NoDup sources) as Hnd.
  assert (Hsub : forall s', In s' (distinct_sources sources) -> s' = s)
    by (intros s' H; apply Hall; now apply distinct_sources_In).
  assert (Hin : In s (distinct_sources sources)).
  { apply distinct_sources_In. destruct sources as [ | s0 l ]; [ congruence | ].
    left. apply Hall. now left. }
  destruct (distinct_sources sources) as [ | a [ | b l ] ].
  - destruct Hin.
  - f_equal. apply Hsub. now left.
  - exfalso. inversion Hnd as [ | ? ? Hnotin _ ]; subst. apply Hnotin.
    left. rewrite (Hsub a (or_introl eq_refl)).
    apply Hsub. right. now left.
Qed.

Lemma chunks_of_source_all (s : str) (l : list Chunk) :
  (forall c, In c l -> source_of c = s) -> chunks_of_source s l = l.
Proof.
  unfold chunks_of_source. induction l as [ | c l IH ]; intros Hall; [ reflexivity | ].
  cbn [filter].
  assert (E : str_eqb (source_of c) s = true)
    by (apply str_eqb_eq, Hall; now left).
  rewrite E, IH; [ reflexivity | ]. intros c' Hc'. apply Hall. now right.
Qed.

Section ChunkThenPrepare.

Variable entropy : Type.
Variable uuid4 : entropy -> str * entropy.

(** X11: the chunk file of one PDF, given alone to the builder, makes one
    document with the file name of the PDF as title: its content chunks
    are the chunks in order, each with the [chunk_index] the chunking
    loop gave it, and with the number of chunks as [total_chunks] in
    place of the number the chunking loop stored. An empty text makes no
    chunk and the builder writes nothing. *)
Theorem chunk_file_of_one_pdf
  (T pdf_file_name : str) (cs ov : Z) (out : list Chunk)
  (collection_name : str) (st : entropy) :
  0 <= ov < cs ->
  ProcessPdfs.chunks T pdf_file_name cs ov = Ok out ->
  (T = [] ->
     out = [] /\
     prepare_openwebui_collection entropy uuid4 [Some out] collection_name st = (None, st)) /\
  (T <> [] ->
     exists d st',
       prepare_openwebui_collection entropy uuid4 [Some out] collection_name st
       = (Some {| name := collection_name; documents := [d] |}, st')
       /\ Document.title d = pdf_file_name
       /\ length (Document.content_chunks d) = length out
       /\ forall k c, nth_error out k = Some c ->
            exists cc,
              nth_error (Document.content_chunks d) k = Some cc
              /\ ContentChunk.content cc = text c
              /\ source (ContentChunk.metadata cc) = source (metadata c)
              /\ chunk_index (ContentChunk.metadata cc) = chunk_index (metadata c)
              /\ total_chunks (ContentChunk.metadata cc) = len out).
Proof.
  intros Hvalid Hout. pose proof Hout as Hform.
  rewrite chunks_closed_form in Hform by lia. injection Hform as Hform.
  split.
  - intros ->.
    assert (Hzero : range_length 0 (len (@nil char)) (cs - ov) = 0).
    { rewrite range_length_positive_step by (unfold len; cbn; lia).
      apply Z.div_small. unfold len. cbn. lia. }
    rewrite Hzero in Hform. cbn in Hform. subst out. split; reflexivity.
  - intros HT.
    assert (Hne : out <> []).
    { intros Hnil. rewrite Hnil in Hform. apply map_eq_nil in Hform.
      apply (f_equal (@length nat)) in Hform. rewrite length_seq in Hform. cbn in Hform.
      pose proof (count_covers T cs ov Hvalid) as Hcov. rewrite Hform in Hcov.
      destruct T; [ congruence | cbn in Hcov; lia ]. }
    assert (Hsrc : forall c, In c out -> source_of c = pdf_file_name).
    { intros c Hc. rewrite <- Hform in Hc. apply in_map_iff in Hc.
      destruct Hc as (k & <- & _). reflexivity. }
    destruct (prepare_written entropy uuid4 [Some out] collection_name st)
      as (docs & st' & Hrun & Hall).
    assert (Hload : load_all [Some out] = out) by reflexivity.
    rewrite Hload in Hrun, Hall.
    rewrite (distinct_sources_one pdf_file_name) in Hall;
      [ | destruct out; [ congruence | discriminate ]
        | intros s' Hs'; apply in_map_iff in Hs'; destruct Hs' as (c & <- & Hc); auto ].
    cbn [map] in Hall. rewrite (chunks_of_source_all _ _ Hsrc) in Hall.
    inversion Hall as [ | item d items docs' Hd Hrest ]; subst items docs item.
    inversion Hrest; subst docs'.
    exists d, st'. split; [ destruct out; [ congruence | exact Hrun ] | ].
    destruct Hd as (Htitle & _ & Hccs). cbn [fst snd] in *.
    split; [ exact Htitle | ].
    assert (Hlen : length (Document.content_chunks d) = length out).
    { apply Forall2_length in Hccs. rewrite enumerate_length in Hccs. congruence. }
    split; [ exact Hlen | ].
    intros k c Hk.
    assert (Hkl : (k < length (Document.content_chunks d))%nat)
      by (rewrite Hlen; apply nth_error_Some; congruence).
    destruct (nth_error (Document.content_chunks d) k) as [ cc | ] eqn:Ecc;
      [ | apply nth_error_None in Ecc; lia ].
    exists cc. split; [ reflexivity | ].
    destruct (Forall2_nth_error_r _ _ _ Hccs k cc Ecc) as ([i c0] & Hic & _ & Hcontent & Hmeta).
    apply enumerate_nth_error in Hic. destruct Hic as [-> Hc0].
    rewrite Hk in Hc0. injection Hc0 as <-. cbn [fst snd] in *.
    rewrite Hmeta. cbn [source chunk_index total_chunks].
    split; [ exact Hcontent | ].
    destruct (chunks_nth_error T pdf_file_name cs ov Hvalid out k c Hout Hk) as (_ & -> & _).
    repeat split.
Qed.

End ChunkThenPrepare.

(** ** The loop over the PDF files *)

Lemma create_In (f : str) (d : directory) : In f (create f d).
Proof.
  unfold create. destruct (existsb (fun f' => str_eqb f' f) d) eqn:E.
  - apply existsb_exists in E. destruct E as (f' & Hin & Heq).
    apply str_eqb_eq in Heq. now subst.
  - apply in_or_app. right. now left.
Qed.

Lemma create_incl (f : str) (d : directory) : incl d (create f d).
Proof.
  unfold create. destruct (existsb (fun f' => str_eqb f' f) d);
    [ apply incl_refl | apply incl_appl, incl_refl ].
Qed.

Lemma is_pdf_processed_In (pdf_name : str) (d : directory) :
  is_pdf_processed pdf_name d = true <-> In (chunk_file_name pdf_name) d.
Proof.
  unfold is_pdf_processed. rewrite existsb_exists. split.
  - intros (f & Hin & Heq). apply str_eqb_eq in Heq. now subst.
  - intros Hin. exists (chunk_file_name pdf_name). split; [ exact Hin | now apply str_eqb_eq ].
Qed.

Lemma count_status_app (s : status) (a b : list (str * status)) :
  count_status s (a ++ b) = count_status s a + count_status s b.
Proof. unfold count_status. now rewrite filter_app, len_app. Qed.

(** One PDF: what the body adds to the progress. *)
Lemma pdf_body_step (env : Environment) (force : bool) (p p' : Progress) (f : PdfFile.t) :
  pdf_body env force p f = Some p' ->
  exists st,
    file_details p' = file_details p ++ [(PdfFile.name f, st)]
    /\ processed_count p' = processed_count p + count_status Processed [(PdfFile.name f, st)]
    /\ skipped_count p' = skipped_count p + count_status Skipped [(PdfFile.name f, st)]
    /\ incl (chunks_dir p) (chunks_dir p')
    /\ (st <> Error -> In (chunk_file_name (PdfFile.stem f)) (chunks_dir p'))
    /\ (st = Skipped ->
          force = false /\ chunks_dir p' = chunks_dir p
          /\ In (chunk_file_name (PdfFile.stem f)) (chunks_dir p))
    /\ (force = false -> In (chunk_file_name (PdfFile.stem f)) (chunks_dir p) ->
          st = Skipped).
Proof.
  unfold pdf_body.
  destruct (file_info_returns env f); [ cbn [negb] | discriminate ].
  destruct (negb force && is_pdf_processed (PdfFile.stem f) (chunks_dir p)) eqn:Eskip.
  - apply andb_true_iff in Eskip. destruct Eskip as [Hforce Hthere].
    apply negb_true_iff in Hforce. apply is_pdf_processed_In in Hthere.
    destruct (processed_info_returns env f); [ | discriminate ].
    intros H. injection H as <-. exists Skipped. cbn.
    repeat split; auto using incl_refl; lia.
  - assert (Hnot : force = false ->
                   In (chunk_file_name (PdfFile.stem f)) (chunks_dir p) -> False).
    { intros -> Hin. apply is_pdf_processed_In in Hin. rewrite Hin in Eskip. discriminate. }
    destruct (try_block env f); intros H; injection H as <-;
      [ exists Processed | exists Error | exists Error ]; cbn;
      repeat split;
      auto using incl_refl, create_incl, create_In;
      try lia; try discriminate; try congruence;
      try (intros Hf Hin; exfalso; exact (Hnot Hf Hin)).
Qed.

(** The loop: one entry per PDF, in order; the counters count the
    entries; the directory only grows. *)
Lemma pdf_loop_steps (env : Environment) (force : bool) (pdf_files : list PdfFile.t) :
  forall p p',
    pdf_loop env force pdf_files p = Some p' ->
    exists new,
      file_details p' = file_details p ++ new
      /\ map fst new = map PdfFile.name pdf_files
      /\ processed_count p' = processed_count p + count_status Processed new
      /\ skipped_count p' = skipped_count p + count_status Skipped new
      /\ incl (chunks_dir p) (chunks_dir p')
      /\ (forall k f st, nth_error pdf_files k = Some f ->
            nth_error new k = Some (PdfFile.name f, st) ->
            (st <> Error -> In (chunk_file_name (PdfFile.stem f)) (chunks_dir p'))
            /\ (st = Skipped -> force = false)
            /\ (force = false -> In (chunk_file_name (PdfFile.stem f)) (chunks_dir p) ->
                  st = Skipped))
      /\ ((forall d, In d new -> snd d = Skipped) -> chunks_dir p' = chunks_dir p).
Proof.
  induction pdf_files as [ | f files IH ]; intros p p' Hrun; cbn [pdf_loop] in Hrun.
  - injection Hrun as <-. exists []. rewrite app_nil_r.
    split; [ reflexivity | ]. split; [ reflexivity | ].
    split; [ unfold count_status; cbn; lia | ].
    split; [ unfold count_status; cbn; lia | ].
    split; [ apply incl_refl | ].
    split; [ | reflexivity ].
    intros k f st Hk. destruct k; discriminate Hk.
  - destruct (pdf_body env force p f) as [ p1 | ] eqn:Ebody; [ | discriminate Hrun ].
    destruct (pdf_body_step env force p p1 f Ebody)
      as (st0 & Hd1 & Hp1 & Hs1 & Hincl1 & Hok1 & Hskip1 & Hthere1).
    destruct (IH p1 p' Hrun) as (new & Hd & Hnames & Hp & Hs & Hincl & Hfiles & Hsame).
    exists ((PdfFile.name f, st0) :: new).
    split; [ rewrite Hd, Hd1, <- app_assoc; reflexivity | ].
    split; [ cbn [map fst]; now rewrite Hnames | ].
    split; [ rewrite Hp, Hp1; change ((PdfFile.name f, st0) :: new)
               with ([(PdfFile.name f, st0)] ++ new); rewrite count_status_app; lia | ].
    split; [ rewrite Hs, Hs1; change ((PdfFile.name f, st0) :: new)
               with ([(PdfFile.name f, st0)] ++ new); rewrite count_status_app; lia | ].
    split; [ eapply incl_tran; eassumption | ].
    split.
    + intros k f' st Hk Hnew. destruct k as [ | k ]; cbn [nth_error] in Hk, Hnew.
      * injection Hk as <-. injection Hnew as <-.
        split; [ intros Hne; apply Hincl, Hok1, Hne | ].
        split; [ intros Hst; now apply Hskip1 | exact Hthere1 ].
      * destruct (Hfiles k f' st Hk Hnew) as (Hok & Hsk & Hth).
        split; [ exact Hok | ]. split; [ exact Hsk | ].
        intros Hforce Hin. apply Hth; [ exact Hforce | apply Hincl1, Hin ].
    + intros Hall. rewrite Hsame by (intros d Hd'; apply Hall; now right).
      apply (Hskip1 (Hall (PdfFile.name f, st0) (or_introl eq_refl))).
Qed.

Lemma process_pdfs_progress (env : Environment) (force skip : bool)
  (pdf_files : list PdfFile.t) (dir : directory) (o : Outcome) :
  process_pdfs env force skip pdf_files dir = Some o ->
  pdf_loop env force pdf_files
    {| chunks_dir := dir; processed_count := 0; skipped_count := 0; file_details := [] |}
  = Some (progress o)
  /\ returned o = (0 <? processed_count (progress o)) || (0 <? skipped_count (progress o))
  /\ collection_prepared o
     = negb skip && ((0 <? processed_count (progress o)) || force).
Proof.
  unfold process_pdfs.
  destruct (pdf_loop env force pdf_files _) as [ p | ]; [ | discriminate ].
  destruct (_ && negb (prepare_returns env)); [ discriminate | ].
  intros H. injection H as <-. repeat split.
Qed.

Lemma count_status_pos (s : status) (details : list (str * status)) :
  0 < count_status s details <-> exists d, In d details /\ snd d = s.
Proof.
  unfold count_status, len. split.
  - intros H.
    destruct (filter _ details) as [ | d l ] eqn:E; [ cbn in H; lia | ].
    assert (Hin : In d (filter
                          (fun d => match snd d, s with
                                    | Skipped, Skipped | Processed, Processed
                                    | Error, Error => true
                                    | _, _ => false
                                    end) details)) by (rewrite E; now left).
    apply filter_In in Hin. destruct Hin as [Hin Hs]. exists d. split; [ exact Hin | ].
    destruct (snd d), s; congruence.
  - intros (d & Hin & Hs).
    assert (Hf : In d (filter
                         (fun d => match snd d, s with
                                   | Skipped, Skipped | Processed, Processed
                                   | Error, Error => true
                                   | _, _ => false
                                   end) details)).
    { apply filter_In. split; [ exact Hin | ]. rewrite Hs. now destruct s. }
    destruct (filter _ details); [ destruct Hf | cbn; lia ].
Qed.

Lemma count_status_one (n : str) (st s : status) :
  count_status s [(n, st)]
  = match st, s with
    | Skipped, Skipped | Processed, Processed | Error, Error => 1
    | _, _ => 0
    end.
Proof. destruct st, s; reflexivity. Qed.

Lemma count_status_total (details : list (str * status)) :
  count_status Processed details + count_status Skipped details + count_status Error details
  = len details.
Proof.
  induction details as [ | [n st] l IH ]; [ reflexivity | ].
  change ((n, st) :: l) with ([(n, st)] ++ l).
  rewrite !count_status_app, len_app, <- IH, !count_status_one.
  change (len [(n, st)]) with 1. destruct st; lia.
Qed.

(** X14: when [process_pdfs] returns, [file_details] has one entry per PDF
    file, in the order of the files and under the name of the file;
    [processed_count] and [skipped_count] are the numbers of entries with
    status processed and skipped, and with the entries in error they add
    up to the number of files. *)
Theorem process_pdfs_accounts (env : Environment) (force skip : bool)
  (pdf_files : list PdfFile.t) (dir : directory) (o : Outcome) :
  process_pdfs env force skip pdf_files dir = Some o ->
  let details := file_details (progress o) in
  map fst details = map PdfFile.name pdf_files
  /\ processed_count (progress o) = count_status Processed details
  /\ skipped_count (progress o) = count_status Skipped details
  /\ processed_count (progress o) + skipped_count (progress o) + count_status Error details
     = len pdf_files.
Proof.
  intros Hrun. destruct (process_pdfs_progress _ _ _ _ _ _ Hrun) as (Hloop & _).
  destruct (pdf_loop_steps _ _ _ _ _ Hloop) as (new & Hd & Hnames & Hp & Hs & _).
  cbn [file_details processed_count skipped_count app] in Hd, Hp, Hs.
  cbv zeta. rewrite Hd.
  split; [ exact Hnames | ]. split; [ lia | ]. split; [ lia | ].
  rewrite Hp, Hs. cbn [Z.add]. rewrite count_status_total.
  unfold len. rewrite <- (length_map fst new), Hnames, length_map. reflexivity.
Qed.

(** X15: [main] ends with status 2 exactly when [parse_args] does not
    accept the command line, and with status 0 exactly when [parse_args]
    printed the help or returned the flags and [process_pdfs], called
    with them, returns with some PDF processed or skipped; in every other
    case the status is 1, so with the flags accepted and no PDF file, or
    every PDF in error, it is 1. *)
Theorem main_exit_status (env : Environment) (args : parse_args)
  (pdf_files : list PdfFile.t) (dir : directory) :
  (main env args pdf_files dir = 0
   <-> args = HelpPrinted
       \/ exists force skip o,
            args = Namespace force skip
            /\ process_pdfs env force skip pdf_files dir = Some o
            /\ exists d, In d (file_details (progress o)) /\ snd d <> Error)
  /\ (main env args pdf_files dir = 2 <-> args = ArgumentError)
  /\ (main env args pdf_files dir = 0 \/ main env args pdf_files dir = 1
      \/ main env args pdf_files dir = 2)
  /\ (forall force skip,
        args = Namespace force skip -> pdf_files = [] ->
        main env args pdf_files dir = 1).
Proof.
  destruct args as [ force skip | | ]; cbn [main].
  2: { repeat split; auto; try discriminate;
       intros [H | (f & k & o & H & _)]; discriminate H. }
  2: { repeat split; auto; try discriminate;
       intros [H | (f & k & o & H & _)]; discriminate H. }
  assert (Hret : forall o, process_pdfs env force skip pdf_files dir = Some o ->
            (returned o = true
             <-> exists d, In d (file_details (progress o)) /\ snd d <> Error)).
  { intros o Hrun. destruct (process_pdfs_progress _ _ _ _ _ _ Hrun) as (Hloop & Hret & _).
    destruct (pdf_loop_steps _ _ _ _ _ Hloop) as (new & Hd & _ & Hp & Hs & _).
    cbn [file_details processed_count skipped_count app] in Hd, Hp, Hs.
    rewrite Hret, Hd, orb_true_iff, !Z.ltb_lt, Hp, Hs. cbn [Z.add].
    rewrite !count_status_pos. split.
    - intros [(d & Hin & Hst) | (d & Hin & Hst)]; exists d; split; congruence.
    - intros (d & Hin & Hst). destruct (snd d) eqn:E; [ right | left | congruence ];
        exists d; auto. }
  destruct (process_pdfs env force skip pdf_files dir) as [ o | ] eqn:Erun.
  - pose proof (Hret o eq_refl) as Ho.
    destruct (returned o) eqn:Er.
    + split; [ | split; [ | split ] ].
      * split; [ intros _ | reflexivity ].
        right. exists force, skip, o.
        split; [ reflexivity | split; [ exact Erun | now apply Ho ] ].
      * split; discriminate.
      * now left.
      * intros f k Hargs ->. exfalso.
        destruct (proj1 Ho eq_refl) as (d & Hin & _).
        destruct (process_pdfs_progress _ _ _ _ _ _ Erun) as (Hloop & _).
        cbn in Hloop. injection Hloop as Hloop. rewrite <- Hloop in Hin. destruct Hin.
    + split; [ | split; [ | split ] ].
      * split; [ discriminate | ].
        intros [H | (f & k & o' & Hargs & Ho' & Hd)]; [ discriminate H | ].
        injection Hargs as <- <-. rewrite Erun in Ho'. injection Ho' as <-.
        apply Ho in Hd. discriminate Hd.
      * split; discriminate.
      * right. now left.
      * reflexivity.
  - split; [ | split; [ | split ] ].
    + split; [ discriminate | ].
      intros [H | (f & k & o' & Hargs & Ho' & _)]; [ discriminate H | ].
      injection Hargs as <- <-. rewrite Erun in Ho'. discriminate Ho'.
    + split; discriminate.
    + right. now left.
    + reflexivity.
Qed.

(** X16: with [force_reprocess] no PDF is skipped; a PDF is skipped only
    without [force_reprocess], and without it a PDF whose chunk file is
    in the chunks directory at the start of the run is skipped; every PDF
    that does not end in error has its chunk file in the directory after
    the run, and the directory only grows; the collection is prepared
    exactly when [skip_openwebui] is off and either [force_reprocess] is
    on or some PDF was processed in this run. *)
Theorem process_pdfs_skip_and_prepare (env : Environment) (force skip : bool)
  (pdf_files : list PdfFile.t) (dir : directory) (o : Outcome) :
  process_pdfs env force skip pdf_files dir = Some o ->
  (force = true -> forall d, In d (file_details (progress o)) -> snd d <> Skipped)
  /\ (forall k f st,
        nth_error pdf_files k = Some f ->
        nth_error (file_details (progress o)) k = Some (PdfFile.name f, st) ->
        (st = Skipped -> force = false)
        /\ (st <> Error -> In (chunk_file_name (PdfFile.stem f)) (chunks_dir (progress o)))
        /\ (force = false -> In (chunk_file_name (PdfFile.stem f)) dir -> st = Skipped))
  /\ incl dir (chunks_dir (progress o))
  /\ (collection_prepared o = true
      <-> skip = false
          /\ (force = true
              \/ exists d, In d (file_details (progress o)) /\ snd d = Processed)).
Proof.
  intros Hrun. destruct (process_pdfs_progress _ _ _ _ _ _ Hrun) as (Hloop & _ & Hprep).
  destruct (pdf_loop_steps _ _ _ _ _ Hloop)
    as (new & Hd & Hnames & Hp & _ & Hincl & Hfiles & _).
  cbn [file_details processed_count chunks_dir app] in Hd, Hp, Hincl, Hfiles.
  rewrite Hd.
  assert (Hkth : forall k f st,
            nth_error pdf_files k = Some f ->
            nth_error new k = Some (PdfFile.name f, st) ->
            (st = Skipped -> force = false)
            /\ (st <> Error -> In (chunk_file_name (PdfFile.stem f)) (chunks_dir (progress o)))
            /\ (force = false -> In (chunk_file_name (PdfFile.stem f)) dir -> st = Skipped)).
  { intros k f st Hk Hnew. destruct (Hfiles k f st Hk Hnew) as (H1 & H2 & H3). auto. }
  split; [ | split; [ exact Hkth | split; [ exact Hincl | ] ] ].
  - intros Hforce [n st] Hin Hst. cbn [snd] in Hst. subst st.
    apply In_nth_error in Hin. destruct Hin as [k Hk].
    assert (Hlt : (k < length pdf_files)%nat).
    { rewrite <- (length_map PdfFile.name), <- Hnames, length_map.
      apply nth_error_Some. congruence. }
    destruct (nth_error pdf_files k) as [ f | ] eqn:Ef;
      [ | apply nth_error_None in Ef; lia ].
    assert (Hn : n = PdfFile.name f).
    { apply (f_equal (fun l => nth_error l k)) in Hnames.
      rewrite !nth_error_map, Hk, Ef in Hnames. cbn in Hnames. congruence. }
    subst n. destruct (Hkth k f Skipped Ef Hk) as (H1 & _).
    rewrite (H1 eq_refl) in Hforce. discriminate Hforce.
  - rewrite Hprep, andb_true_iff, negb_true_iff, orb_true_iff, Z.ltb_lt, Hp.
    cbn [Z.add]. rewrite count_status_pos.
    split; intros [Hs [H | H]]; auto.
Qed.

(** X17: a second run without [force_reprocess], on the same PDF files and
    on the chunks directory the first run left, skips every PDF the
    first run processed or skipped; when the first run had no PDF in
    error, the second processes none, leaves the directory as it is and
    does not prepare the collection. *)
Theorem process_pdfs_second_run
  (env1 env2 : Environment) (force1 skip1 skip2 : bool)
  (pdf_files : list PdfFile.t) (dir : directory) (o1 o2 : Outcome) :
  process_pdfs env1 force1 skip1 pdf_files dir = Some o1 ->
  process_pdfs env2 false skip2 pdf_files (chunks_dir (progress o1)) = Some o2 ->
  (forall k n st,
     nth_error (file_details (progress o1)) k = Some (n, st) -> st <> Error ->
     nth_error (file_details (progress o2)) k = Some (n, Skipped))
  /\ ((forall d, In d (file_details (progress o1)) -> snd d <> Error) ->
        (forall d, In d (file_details (progress o2)) -> snd d = Skipped)
        /\ processed_count (progress o2) = 0
        /\ chunks_dir (progress o2) = chunks_dir (progress o1)
        /\ collection_prepared o2 = false).
Proof.
  intros Hrun1 Hrun2.
  destruct (process_pdfs_progress _ _ _ _ _ _ Hrun1) as (Hloop1 & _).
  destruct (process_pdfs_progress _ _ _ _ _ _ Hrun2) as (Hloop2 & _ & Hprep2).
  destruct (pdf_loop_steps _ _ _ _ _ Hloop1) as (new1 & Hd1 & Hnames1 & _ & _ & _ & Hfiles1 & _).
  destruct (pdf_loop_steps _ _ _ _ _ Hloop2)
    as (new2 & Hd2 & Hnames2 & Hp2 & _ & _ & Hfiles2 & Hsame2).
  cbn [file_details processed_count chunks_dir app] in *.
  rewrite Hd1, Hd2.
  assert (Hkth : forall k n st,
            nth_error new1 k = Some (n, st) -> st <> Error ->
            nth_error new2 k = Some (n, Skipped)).
  { intros k n st Hk Hst.
    assert (Hlt : (k < length pdf_files)%nat).
    { rewrite <- (length_map PdfFile.name), <- Hnames1, length_map.
      apply nth_error_Some. congruence. }
    destruct (nth_error pdf_files k) as [ f | ] eqn:Ef;
      [ | apply nth_error_None in Ef; lia ].
    assert (Hn : n = PdfFile.name f).
    { apply (f_equal (fun l => nth_error l k)) in Hnames1.
      rewrite !nth_error_map, Hk, Ef in Hnames1. cbn in Hnames1. congruence. }
    subst n. destruct (Hfiles1 k f st Ef Hk) as (Hthere & _).
    assert (Hlt2 : (k < length new2)%nat).
    { rewrite <- (length_map fst), Hnames2, length_map. exact Hlt. }
    destruct (nth_error new2 k) as [ [n2 st2] | ] eqn:E2;
      [ | apply nth_error_None in E2; lia ].
    assert (Hn2 : n2 = PdfFile.name f).
    { apply (f_equal (fun l => nth_error l k)) in Hnames2.
      rewrite !nth_error_map, E2, Ef in Hnames2. cbn in Hnames2. congruence. }
    subst n2. destruct (Hfiles2 k f st2 Ef E2) as (_ & _ & Hskip).
    now rewrite (Hskip eq_refl (Hthere Hst)). }
  split; [ exact Hkth | ].
  intros Hnoerr.
  assert (Hall : forall d, In d new2 -> snd d = Skipped).
  { intros [n2 st2] Hin. apply In_nth_error in Hin. destruct Hin as [k Hk].
    assert (Hlt1 : (k < length new1)%nat).
    { rewrite <- (length_map fst), Hnames1, <- Hnames2, length_map.
      apply nth_error_Some. congruence. }
    destruct (nth_error new1 k) as [ [n1 st1] | ] eqn:E1;
      [ | apply nth_error_None in E1; lia ].
    assert (Hne : st1 <> Error) by (apply (Hnoerr (n1, st1)); eapply nth_error_In; eassumption).
    rewrite (Hkth k n1 st1 E1 Hne) in Hk. now injection Hk as <- <-. }
  split; [ exact Hall | ].
  assert (Hzero : count_status Processed new2 = 0).
  { destruct (Z.eq_dec (count_status Processed new2) 0) as [ H | H ]; [ exact H | ].
    assert (Hpos : 0 < count_status Processed new2).
    { unfold count_status, len in *. lia. }
    apply count_status_pos in Hpos. destruct Hpos as (d & Hin & Hst).
    rewrite (Hall d Hin) in Hst. discriminate Hst. }
  split; [ lia | ]. split; [ apply Hsame2, Hall | ].
  rewrite Hprep2, Hp2, Hzero. cbn. apply andb_false_r.
Qed.

(** ** From the pages of a PDF to its chunks and its markdown *)

Lemma pages_text_concat (pages : list str) :
  pages_text pages = concat (map (fun page => page ++ [nl; nl]) pages).
Proof.
  unfold pages_text.
  assert (H : forall acc,
            fold_left (fun text_ page => text_ ++ (page ++ [nl; nl])) pages acc
            = acc ++ concat (map (fun page => page ++ [nl; nl]) pages)).
  { induction pages as [ | page pages IH ]; intros acc; cbn [fold_left map concat].
    - now rewrite app_nil_r.
    - now rewrite IH, <- app_assoc. }
  apply (H []).
Qed.

Lemma blank_firstn (n : nat) (s : str) : blank s -> blank (firstn n s).
Proof.
  intros H. rewrite <- (firstn_skipn n s) in H. now apply blank_app in H.
Qed.

Lemma blank_skipn (n : nat) (s : str) : blank s -> blank (skipn n s).
Proof.
  intros H. rewrite <- (firstn_skipn n s) in H. now apply blank_app in H.
Qed.

Lemma chunks_not_nil (T s : str) (cs ov : Z) (out : list Chunk) :
  0 <= ov < cs -> ProcessPdfs.chunks T s cs ov = Ok out -> (out = [] <-> T = []).
Proof.
  intros Hvalid Hout. rewrite chunks_closed_form in Hout by lia. injection Hout as <-.
  split.
  - intros Hnil. apply map_eq_nil in Hnil.
    apply (f_equal (@length nat)) in Hnil. rewrite length_seq in Hnil. cbn in Hnil.
    pose proof (count_covers T cs ov Hvalid) as Hcov. rewrite Hnil in Hcov.
    destruct T; [ reflexivity | cbn in Hcov; lia ].
  - intros ->.
    assert (Hzero : range_length 0 (len (@nil char)) (cs - ov) = 0).
    { rewrite range_length_positive_step by (unfold len; cbn; lia).
      apply Z.div_small. unfold len. cbn. lia. }
    now rewrite Hzero.
Qed.

Section BlankPages.

Variables ch_isupper ch_islower ch_istitle : char -> bool.

(** X13: for a PDF whose pages hold white space only, as a scan without a
    text layer, the markdown is the header alone, yet as soon as there is
    a page the text is not empty and chunks are written, each of white
    space only. *)
Theorem pages_without_text
  (pages : list str) (title : str) (page_count : Z) (pdf_filename processed_date : str) :
  Forall blank pages ->
  generate_markdown ch_isupper ch_islower ch_istitle
    (pages_text pages) title page_count pdf_filename processed_date
  = header title page_count pdf_filename processed_date
  /\ exists out,
       ProcessPdfs.chunks_of_text (pages_text pages) pdf_filename = Ok out
       /\ (out = [] <-> pages = [])
       /\ Forall (fun c => blank (text c)) out.
Proof.
  intros Hblank.
  assert (Htext : blank (pages_text pages)).
  { rewrite pages_text_concat. induction Hblank as [ | page pages Hp _ IH ]; [ reflexivity | ].
    cbn [map concat]. apply blank_app. split; [ | exact IH ].
    apply blank_app. split; [ exact Hp | reflexivity ]. }
  split.
  - rewrite generate_markdown_paragraphs.
    rewrite (proj2 (paragraphs_nil_iff (pages_text pages)) Htext). apply app_nil_r.
  - assert (Hvalid : 0 <= ProcessPdfs.overlap < ProcessPdfs.chunk_size)
      by (unfold ProcessPdfs.overlap, ProcessPdfs.chunk_size; lia).
    unfold ProcessPdfs.chunks_of_text.
    pose proof (chunks_closed_form (pages_text pages) pdf_filename
                  ProcessPdfs.chunk_size ProcessPdfs.overlap
                  ltac:(lia) ltac:(lia)) as Hform.
    eexists. split; [ exact Hform | ]. split.
    + rewrite (chunks_not_nil _ _ _ _ _ Hvalid Hform).
      rewrite pages_text_concat. split.
      * intros Hnil. destruct pages as [ | page pages ]; [ reflexivity | ].
        cbn [map concat] in Hnil. apply (f_equal (@length char)) in Hnil.
        rewrite !length_app in Hnil. cbn in Hnil. lia.
      * now intros ->.
    + apply Forall_forall. intros c Hc. apply in_map_iff in Hc.
      destruct Hc as (k & <- & Hk). apply in_seq in Hk.
      rewrite (chunk_at_text _ _ _ _ Hvalid) by lia.
      now apply blank_firstn, blank_skipn.
Qed.

End BlankPages.

(** ** The chunk files of several PDFs, read by the collection builder *)

Lemma distinct_sources_app_block (s : str) (seen block : list str) :
  ~ In s seen -> (forall s', In s' block -> s' = s) ->
  distinct_sources (seen ++ block)
  = distinct_sources seen ++ match block with [] => [] | _ :: _ => [s] end.
Proof.
  intros Hfresh. induction block as [ | s0 block IH ] using rev_ind; intros Hall.
  - now rewrite !app_nil_r.
  - assert (Hs0 : s0 = s) by (apply Hall, in_or_app; right; now left).
    subst s0. rewrite app_assoc, distinct_sources_snoc.
    rewrite IH by (intros s' Hs'; apply Hall, in_or_app; now left).
    destruct block as [ | b block ].
    + rewrite !app_nil_r.
      destruct (existsb (fun s' => str_eqb s' s) (distinct_sources seen)) eqn:E;
        [ | reflexivity ].
      apply (proj1 (seen_iff_In _ _)) in E.
      apply (proj1 (distinct_sources_In _ _)) in E. contradiction.
    + assert (E : existsb (fun s' => str_eqb s' s) (distinct_sources seen ++ [s]) = true).
      { apply seen_iff_In, in_or_app. right. now left. }
      rewrite E. reflexivity.
Qed.

Lemma chunks_of_source_app (s : str) (a b : list Chunk) :
  chunks_of_source s (a ++ b) = chunks_of_source s a ++ chunks_of_source s b.
Proof. unfold chunks_of_source. apply filter_app. Qed.

Lemma chunks_of_other_source (s : str) (l : list Chunk) :
  (forall c, In c l -> source_of c <> s) -> chunks_of_source s l = [].
Proof.
  intros H. apply chunks_of_unseen_source. intros Hin. apply in_map_iff in Hin.
  destruct Hin as (c & Hc & Hin). exact (H c Hin Hc).
Qed.

Section PdfsThenPrepare.

Variable entropy : Type.
Variable uuid4 : entropy -> str * entropy.
Variables cs ov : Z.
Hypothesis Hvalid : 0 <= ov < cs.

Lemma chunk_file_of_spec (pdf : str * str) :
  exists out,
    chunk_file_of cs ov pdf = Some out
    /\ (forall c, In c out -> source_of c = fst pdf)
    /\ (out = [] <-> snd pdf = []).
Proof.
  unfold chunk_file_of.
  pose proof (chunks_closed_form (snd pdf) (fst pdf) cs ov ltac:(lia) ltac:(lia)) as Hform.
  rewrite Hform. eexists. split; [ reflexivity | ]. split.
  - intros c Hc. apply in_map_iff in Hc. destruct Hc as (k & <- & _). reflexivity.
  - apply (chunks_not_nil _ _ _ _ _ Hvalid Hform).
Qed.

Lemma load_all_chunk_files (pdfs : list (str * str)) :
  NoDup (map fst pdfs) ->
  (forall c, In c (load_all (map (chunk_file_of cs ov) pdfs)) ->
     In (source_of c) (map fst pdfs))
  /\ distinct_sources (map source_of (load_all (map (chunk_file_of cs ov) pdfs)))
     = map fst (filter (fun pdf => match snd pdf with [] => false | _ :: _ => true end) pdfs)
  /\ (forall pdf out, In pdf pdfs -> chunk_file_of cs ov pdf = Some out ->
        chunks_of_source (fst pdf) (load_all (map (chunk_file_of cs ov) pdfs)) = out).
Proof.
  induction pdfs as [ | pdf pdfs IH ] using rev_ind; intros Hnd.
  - split; [ intros c [] | split; [ reflexivity | intros pdf out [] ] ].
  - rewrite map_app in Hnd. cbn [map] in Hnd.
    assert (Hfresh : ~ In (fst pdf) (map fst pdfs)).
    { intros Hin. apply NoDup_remove_2 in Hnd. apply Hnd. now rewrite app_nil_r. }
    apply NoDup_remove_1 in Hnd. rewrite app_nil_r in Hnd.
    destruct (IH Hnd) as (IHsrc & IHkeys & IHgroup).
    destruct (chunk_file_of_spec pdf) as (out & Hfile & Hsrc & Hnil).
    assert (Hload : load_all (map (chunk_file_of cs ov) (pdfs ++ [pdf]))
                    = load_all (map (chunk_file_of cs ov) pdfs) ++ out).
    { rewrite !load_all_spec, !map_app, concat_app. cbn [map concat].
      now rewrite Hfile, app_nil_r. }
    rewrite Hload. split; [ | split ].
    + intros c Hc. rewrite map_app. apply in_or_app. apply in_app_or in Hc.
      destruct Hc as [Hc | Hc]; [ left; now apply IHsrc | right; left; symmetry; now apply Hsrc ].
    + rewrite map_app, (distinct_sources_app_block (fst pdf)).
      * rewrite IHkeys, filter_app, map_app. f_equal. cbn [filter]. cbv beta.
        destruct pdf as [n T]. cbn [fst snd] in *. destruct T as [ | ch T' ].
        -- rewrite (proj2 Hnil eq_refl). reflexivity.
        -- destruct out as [ | c out' ]; [ discriminate (proj1 Hnil eq_refl) | reflexivity ].
      * intros Hin. apply in_map_iff in Hin. destruct Hin as (c & Hc & Hin).
        apply Hfresh. rewrite <- Hc. now apply IHsrc.
      * intros s' Hs'. apply in_map_iff in Hs'. destruct Hs' as (c & <- & Hc). now apply Hsrc.
    + intros p outp Hp Hfilep. rewrite chunks_of_source_app.
      apply in_app_or in Hp. destruct Hp as [Hp | [<- | []]].
      * rewrite (IHgroup p outp Hp Hfilep).
        rewrite chunks_of_other_source; [ apply app_nil_r | ].
        intros c Hc Heq. apply Hfresh. rewrite <- (Hsrc c Hc), Heq.
        now apply in_map.
      * rewrite Hfile in Hfilep. injection Hfilep as <-.
        rewrite chunks_of_other_source.
        -- cbn [app]. now apply chunks_of_source_all.
        -- intros c Hc Heq. apply Hfresh. rewrite <- Heq. now apply IHsrc.
Qed.

(** X12: the builder, given the chunk files of PDFs with file names that
    differ from one another, in the order of the PDFs, writes one
    document per PDF with a text that is not empty, in that order and
    under the file name of the PDF; the contents of its content chunks
    are the texts of the chunks of that PDF, in order. *)
Theorem chunk_files_of_pdfs
  (pdfs : list (str * str)) (collection_name : str) (st : entropy) :
  NoDup (map fst pdfs) ->
  let written :=
    fst (prepare_openwebui_collection entropy uuid4
           (map (chunk_file_of cs ov) pdfs) collection_name st) in
  map Document.title (documents_written written)
  = map fst (filter (fun pdf => match snd pdf with [] => false | _ :: _ => true end) pdfs)
  /\ forall d, In d (documents_written written) ->
       exists T out,
         In (Document.title d, T) pdfs /\ T <> []
         /\ ProcessPdfs.chunks T (Document.title d) cs ov = Ok out
         /\ map ContentChunk.content (Document.content_chunks d) = map text out.
Proof.
  intros Hnd. cbv zeta.
  destruct (load_all_chunk_files pdfs Hnd) as (_ & Hkeys & Hgroup).
  destruct (prepare_written entropy uuid4 (map (chunk_file_of cs ov) pdfs) collection_name st)
    as (docs & st' & Hrun & Hall).
  rewrite Hrun. cbn [fst].
  assert (Hdocs : documents_written
                    (match load_all (map (chunk_file_of cs ov) pdfs) with
                     | [] => None
                     | _ :: _ => Some {| name := collection_name; documents := docs |}
                     end) = docs).
  { destruct (load_all (map (chunk_file_of cs ov) pdfs)); [ | reflexivity ].
    cbn in Hall. inversion Hall. reflexivity. }
  rewrite Hdocs. rewrite Hkeys in Hall.
  split.
  - clear Hdocs Hrun. revert Hall.
    generalize (map fst (filter (fun pdf => match snd pdf with [] => false | _ :: _ => true end)
                           pdfs)).
    intros keys. revert docs. induction keys as [ | s keys IH ]; intros docs Hall.
    + inversion Hall. reflexivity.
    + inversion Hall as [ | item d items docs' (Ht & _) Hrest ]; subst.
      cbn [map]. rewrite Ht. f_equal. apply IH. exact Hrest.
  - intros d Hd. apply In_nth_error in Hd. destruct Hd as [k Hk].
    destruct (Forall2_nth_error_r _ _ _ Hall k d Hk) as (item & Hitem & Hof).
    rewrite nth_error_map in Hitem.
    match type of Hitem with
    | option_map _ ?x = _ => destruct x as [ s | ] eqn:Es; [ | discriminate Hitem ]
    end.
    injection Hitem as <-.
    apply nth_error_In, in_map_iff in Es. destruct Es as ([n T] & Hn & Hpdf).
    cbn [fst] in Hn. subst n. apply filter_In in Hpdf. destruct Hpdf as [Hpdf HT].
    cbn [snd] in HT.
    destruct (chunk_file_of_spec (s, T)) as (out & Hfile & _).
    pose proof (Hgroup (s, T) out Hpdf Hfile) as Hg. cbn [fst] in Hg. rewrite Hg in Hof.
    destruct (document_of_content _ _ Hof) as (_ & Hcontent & _).
    destruct Hof as (Htitle & _). cbn [fst snd] in *.
    exists T, out. rewrite Htitle.
    split; [ exact Hpdf | ]. split; [ destruct T; [ cbn in HT; discriminate HT | discriminate ] | ].
    split; [ | exact Hcontent ].
    unfold chunk_file_of in Hfile. cbn [fst snd] in Hfile.
    destruct (ProcessPdfs.chunks T s cs ov); [ congruence | discriminate Hfile ].
Qed.

End PdfsThenPrepare.

(** ** The properties above on the sample inputs *)

Lemma list_paragraph_verbatim_witness :
  (len (split two_items [nl]) <> 1 \/ 100 <= len two_items)
  /\ (exists line, In line (split two_items [nl]) /\ is_list_line line)
  /\ paragraph_body ascii_isupper ascii_islower ascii_istitle [] two_items
     = [] ++ two_items ++ [nl; nl].
Proof.
  assert (H1 : len (split two_items [nl]) <> 1 \/ 100 <= len two_items)
    by (left; discriminate).
  assert (H2 : exists line, In line (split two_items [nl]) /\ is_list_line line).
  { exists (lit "- item one"). split; [ left; reflexivity | right; left; reflexivity ]. }
  split; [ exact H1 | split; [ exact H2 | ] ].
  exact (list_paragraph_verbatim ascii_isupper ascii_islower ascii_istitle
           [] two_items H1 H2).
Defined.

Lemma flowing_paragraph_newlines_witness :
  len (split two_lines [nl]) <> 1
  /\ ~ (exists line, In line (split two_lines [nl]) /\ is_list_line line)
  /\ paragraph_body ascii_isupper ascii_islower ascii_istitle [] two_lines
     = [] ++ map newline_to_space two_lines ++ [nl; nl].
Proof.
  assert (H1 : len (split two_lines [nl]) <> 1) by discriminate.
  assert (H2 : ~ (exists line, In line (split two_lines [nl]) /\ is_list_line line)).
  { intros (line & Hin & Hlist). apply is_list_line_markers in Hlist.
    destruct Hin as [<- | [<- | []]]; vm_compute in Hlist; discriminate Hlist. }
  split; [ exact H1 | split; [ exact H2 | ] ].
  exact (proj1 (flowing_paragraph_newlines ascii_isupper ascii_islower ascii_istitle
                  [] two_lines H1 H2)).
Defined.

Lemma paragraphs_invariant_witness :
  In introduction (paragraphs (introduction ++ [nl; nl] ++ two_items))
  /\ strip introduction = introduction.
Proof.
  assert (H : In introduction (paragraphs (introduction ++ [nl; nl] ++ two_items)))
    by (left; reflexivity).
  split; [ exact H | ].
  exact (proj1 (proj2 (paragraphs_invariant _ _ H))).
Defined.

Lemma chunks_reassemble_witness :
  0 <= 1 < 4
  /\ ProcessPdfs.chunks ten_letters s_pdf 4 1 = Ok ten_letters_chunks
  /\ concat (map (fun c => firstn (Z.to_nat (4 - 1)) (text c)) ten_letters_chunks)
     = ten_letters.
Proof.
  assert (Hvalid : 0 <= 1 < 4) by lia.
  split; [ exact Hvalid | split; [ reflexivity | ] ].
  exact (chunks_reassemble ten_letters s_pdf 4 1 Hvalid ten_letters_chunks eq_refl).
Defined.

Lemma chunks_overlap_witness :
  0 <= 1 < 4
  /\ ProcessPdfs.chunks ten_letters s_pdf 4 1 = Ok ten_letters_chunks
  /\ exists c c',
       nth_error ten_letters_chunks 2 = Some c
       /\ nth_error ten_letters_chunks 3 = Some c'
       /\ skipn (Z.to_nat (4 - 1)) (text c) = text c'.
Proof.
  assert (Hvalid : 0 <= 1 < 4) by lia.
  split; [ exact Hvalid | split; [ reflexivity | ] ].
  eexists. eexists. split; [ reflexivity | split; [ reflexivity | ] ].
  refine (proj2 (chunks_overlap ten_letters s_pdf 4 1 Hvalid ten_letters_chunks 2 _ _
                   eq_refl eq_refl eq_refl) _).
  vm_compute. discriminate.
Defined.

Lemma chunks_sizes_and_counts_witness :
  0 <= 1 < 4
  /\ ProcessPdfs.chunks ten_letters s_pdf 4 1 = Ok ten_letters_chunks
  /\ exists c,
       nth_error ten_letters_chunks 3 = Some c
       /\ len (text c) = Z.min 4 (len ten_letters - Z.of_nat 3 * (4 - 1)).
Proof.
  assert (Hvalid : 0 <= 1 < 4) by lia.
  split; [ exact Hvalid | split; [ reflexivity | ] ].
  eexists. split; [ reflexivity | ].
  exact (proj1 (chunks_sizes_and_counts ten_letters s_pdf 4 1 Hvalid ten_letters_chunks 3 _
                  eq_refl eq_refl)).
Defined.

Lemma chunk_file_of_one_pdf_witness :
  0 <= 1 < 4
  /\ ProcessPdfs.chunks ten_letters s_pdf 4 1 = Ok ten_letters_chunks
  /\ exists d st',
       prepare_openwebui_collection nat counter_uuid4 [Some ten_letters_chunks] (lit "K") 0%nat
       = (Some {| name := lit "K"; documents := [d] |}, st')
       /\ Document.title d = s_pdf.
Proof.
  assert (Hvalid : 0 <= 1 < 4) by lia.
  split; [ exact Hvalid | split; [ reflexivity | ] ].
  destruct (proj2 (chunk_file_of_one_pdf nat counter_uuid4 ten_letters s_pdf 4 1
                     ten_letters_chunks (lit "K") 0%nat Hvalid eq_refl)
              ltac:(discriminate))
    as (d & st' & Hrun & Htitle & _).
  exists d, st'. split; assumption.
Defined.

Lemma chunk_files_of_pdfs_witness :
  0 <= 1 < 4
  /\ NoDup (map fst two_pdfs)
  /\ map Document.title
       (documents_written
          (fst (prepare_openwebui_collection nat counter_uuid4
                  (map (chunk_file_of 4 1) two_pdfs) (lit "K") 0%nat)))
     = [lit "a.pdf"; lit "b.pdf"].
Proof.
  assert (Hvalid : 0 <= 1 < 4) by lia.
  assert (Hnd : NoDup (map fst two_pdfs)).
  { repeat constructor; cbn; intros H;
      repeat (destruct H as [H | H]; [ discriminate H | ]); exact H. }
  split; [ exact Hvalid | split; [ exact Hnd | ] ].
  exact (proj1 (chunk_files_of_pdfs nat counter_uuid4 4 1 Hvalid two_pdfs (lit "K") 0%nat Hnd)).
Defined.

Lemma pages_without_text_witness :
  Forall blank [[]; [nl; space]]
  /\ generate_markdown ascii_isupper ascii_islower ascii_istitle
       (pages_text [[]; [nl; space]]) (lit "scan") 2 (lit "scan.pdf") (lit "now")
     = header (lit "scan") 2 (lit "scan.pdf") (lit "now").
Proof.
  assert (H : Forall blank [[]; [nl; space]]) by (repeat constructor).
  split; [ exact H | ].
  exact (proj1 (pages_without_text ascii_isupper ascii_islower ascii_istitle
                  [[]; [nl; space]] (lit "scan") 2 (lit "scan.pdf") (lit "now") H)).
Defined.

Lemma process_pdfs_accounts_witness :
  exists o,
    process_pdfs calm false false [a_pdf; b_pdf] [lit "a_chunks.json"] = Some o
    /\ map fst (file_details (progress o)) = map PdfFile.name [a_pdf; b_pdf].
Proof.
  destruct (process_pdfs calm false false [a_pdf; b_pdf] [lit "a_chunks.json"])
    as [ o | ] eqn:Hrun; [ | vm_compute in Hrun; discriminate Hrun ].
  exists o. split; [ reflexivity | ].
  exact (proj1 (process_pdfs_accounts calm false false [a_pdf; b_pdf]
                  [lit "a_chunks.json"] o Hrun)).
Defined.

Lemma process_pdfs_skip_and_prepare_witness :
  exists o,
    process_pdfs calm false false [a_pdf; b_pdf] [lit "a_chunks.json"] = Some o
    /\ incl [lit "a_chunks.json"] (chunks_dir (progress o)).
Proof.
  destruct (process_pdfs calm false false [a_pdf; b_pdf] [lit "a_chunks.json"])
    as [ o | ] eqn:Hrun; [ | vm_compute in Hrun; discriminate Hrun ].
  exists o. split; [ reflexivity | ].
  exact (proj1 (proj2 (proj2 (process_pdfs_skip_and_prepare calm false false [a_pdf; b_pdf]
                                [lit "a_chunks.json"] o Hrun)))).
Defined.

Lemma process_pdfs_second_run_witness :
  exists o1 o2,
    process_pdfs calm true false [a_pdf; b_pdf] [] = Some o1
    /\ process_pdfs calm false false [a_pdf; b_pdf] (chunks_dir (progress o1)) = Some o2
    /\ forall k n st,
         nth_error (file_details (progress o1)) k = Some (n, st) -> st <> Error ->
         nth_error (file_details (progress o2)) k = Some (n, Skipped).
Proof.
  destruct (process_pdfs calm true false [a_pdf; b_pdf] [])
    as [ o1 | ] eqn:Hrun1; [ | vm_compute in Hrun1; discriminate Hrun1 ].
  destruct (process_pdfs calm false false [a_pdf; b_pdf] (chunks_dir (progress o1)))
    as [ o2 | ] eqn:Hrun2.
  - exists o1, o2. split; [ reflexivity | split; [ exact Hrun2 | ] ].
    exact (proj1 (process_pdfs_second_run calm calm true false false [a_pdf; b_pdf] []
                    o1 o2 Hrun1 Hrun2)).
  - exfalso. vm_compute in Hrun1. injection Hrun1 as <-.
    vm_compute in Hrun2. discriminate Hrun2.
Defined.

(** ** The chunking loop with the values of the program *)


(** ** The chunking block in its frame *)

Lemma frame_loop_body_spec (fr : Frame.t) (v : Z) :
  Frame.outside (Frame.loop_body fr v) = Frame.outside fr
  /\ Frame.chunk_size (Frame.loop_body fr v) = Frame.chunk_size fr
  /\ Frame.overlap (Frame.loop_body fr v) = Frame.overlap fr
  /\ Frame.chunks (Frame.loop_body fr v)
     = ProcessPdfs.loop_body (Frame.text fr) (Frame.pdf_file_name fr)
         (Frame.chunk_size fr) (Frame.overlap fr) (Frame.chunks fr) v.
Proof.
  unfold Frame.loop_body, ProcessPdfs.loop_body. cbn.
  destruct (slice (Frame.text fr) v (v + Frame.chunk_size fr)); cbn; repeat split.
Qed.

Lemma frame_loop_steps (offsets : list Z) :
  forall fr,
    Frame.outside (fold_left Frame.loop_body offsets fr) = Frame.outside fr
    /\ Frame.chunk_size (fold_left Frame.loop_body offsets fr) = Frame.chunk_size fr
    /\ Frame.overlap (fold_left Frame.loop_body offsets fr) = Frame.overlap fr
    /\ Frame.chunks (fold_left Frame.loop_body offsets fr)
       = fold_left
           (ProcessPdfs.loop_body (Frame.text fr) (Frame.pdf_file_name fr)
              (Frame.chunk_size fr) (Frame.overlap fr))
           offsets (Frame.chunks fr).
Proof.
  induction offsets as [ | v offsets IH ]; intros fr; cbn [fold_left].
  - repeat split.
  - destruct (frame_loop_body_spec fr v) as (Hout & Hcs & Hov & Hchunks).
    destruct (IH (Frame.loop_body fr v)) as (Hout' & Hcs' & Hov' & Hchunks').
    assert (Htext : Frame.text (Frame.loop_body fr v) = Frame.text fr)
      by (unfold Frame.outside in Hout; congruence).
    assert (Hname : Frame.pdf_file_name (Frame.loop_body fr v) = Frame.pdf_file_name fr)
      by (unfold Frame.outside in Hout; congruence).
    split; [ congruence | ]. split; [ congruence | ]. split; [ congruence | ].
    rewrite Hchunks', Htext, Hname, Hcs, Hov, Hchunks. reflexivity.
Qed.

(** The block leaves in [chunks] what the loop makes of the text, the
    file name and the two sizes, and touches nothing outside. *)
Lemma frame_chunking_spec (cs ov : Z) (fr : Frame.t) :
  chunks_after (Frame.chunking cs ov fr)
  = ProcessPdfs.chunks (Frame.text fr) (Frame.pdf_file_name fr) cs ov
  /\ forall fr', Frame.chunking cs ov fr = Ok fr' -> Frame.outside fr' = Frame.outside fr.
Proof.
  unfold Frame.chunking, Frame.loop, ProcessPdfs.chunks. cbn.
  destruct (range 0 (len (Frame.text fr)) (cs - ov)) as [ offsets | e ].
  - destruct (frame_loop_steps offsets
                (Frame.assign_overlap ov
                   (Frame.assign_chunk_size cs (Frame.assign_chunks [] fr))))
      as (Hout & _ & _ & Hchunks).
    cbn in Hchunks. split.
    + cbn [chunks_after]. now rewrite Hchunks.
    + intros fr' H. injection H as <-. rewrite Hout. reflexivity.
  - split; [ reflexivity | discriminate ].
Qed.

(** C9: run in two frames of [process_pdfs] that hold the same text and
    the same PDF file name, with the same [chunk_size] and [overlap], the
    chunking block leaves the same chunks, or raises the same exception,
    whatever the other locals, the files on disk, the clock and the
    values left in [chunks], [i] and [chunk] are: its outcome is the
    function [chunks] of the four arguments. It changes nothing outside
    its own variables, and run again in the frame it left, it leaves the
    same chunks again. *)
Theorem chunker_depends_on_its_arguments_only (fr1 fr2 : Frame.t) (cs ov : Z) :
  Frame.text fr1 = Frame.text fr2 ->
  Frame.pdf_file_name fr1 = Frame.pdf_file_name fr2 ->
  chunks_after (Frame.chunking cs ov fr1) = chunks_after (Frame.chunking cs ov fr2)
  /\ chunks_after (Frame.chunking cs ov fr1)
     = ProcessPdfs.chunks (Frame.text fr1) (Frame.pdf_file_name fr1) cs ov
  /\ (forall fr1',
        Frame.chunking cs ov fr1 = Ok fr1' -> Frame.outside fr1' = Frame.outside fr1)
  /\ (forall fr1' fr1'',
        Frame.chunking cs ov fr1 = Ok fr1' ->
        Frame.chunking cs ov fr1' = Ok fr1'' ->
        Frame.chunks fr1'' = Frame.chunks fr1').
Proof.
  intros Htext Hname.
  destruct (frame_chunking_spec cs ov fr1) as (H1 & Hout1).
  destruct (frame_chunking_spec cs ov fr2) as (H2 & _).
  split; [ rewrite H1, H2, Htext, Hname; reflexivity | ].
  split; [ exact H1 | ]. split; [ exact Hout1 | ].
  intros fr1' fr1'' Hrun Hagain.
  destruct (frame_chunking_spec cs ov fr1') as (H' & _).
  pose proof (Hout1 fr1' Hrun) as Hsame. unfold Frame.outside in Hsame.
  assert (Ht : Frame.text fr1' = Frame.text fr1) by congruence.
  assert (Hn : Frame.pdf_file_name fr1' = Frame.pdf_file_name fr1) by congruence.
  rewrite Ht, Hn, <- H1, Hrun, Hagain in H'. cbn [chunks_after] in H'. congruence.
Qed.

Lemma chunker_depends_on_its_arguments_only_witness :
  Frame.text frame_one = Frame.text frame_two
  /\ Frame.pdf_file_name frame_one = Frame.pdf_file_name frame_two
  /\ Frame.outside frame_one <> Frame.outside frame_two
  /\ chunks_after (Frame.chunking ProcessPdfs.chunk_size ProcessPdfs.overlap frame_one)
     = Ok [ {| text := ten_letters;
               metadata := {| source := s_pdf; chunk_index := 0; total_chunks := 1 |} |} ]
  /\ chunks_after (Frame.chunking ProcessPdfs.chunk_size ProcessPdfs.overlap frame_one)
     = chunks_after (Frame.chunking ProcessPdfs.chunk_size ProcessPdfs.overlap frame_two).
Proof.
  split; [ reflexivity | split; [ reflexivity | split; [ discriminate | ] ] ].
  split; [ reflexivity | ].
  exact (proj1 (chunker_depends_on_its_arguments_only frame_one frame_two
                  ProcessPdfs.chunk_size ProcessPdfs.overlap eq_refl eq_refl)).
Defined.

(** ** Paragraphs in the markdown of a text *)

Section GenerateMarkdownOnTexts.

Variables ch_isupper ch_islower ch_istitle : char -> bool.

Lemma generate_markdown_at
  (text_ title : str) (page_count : Z) (pdf_filename processed_date : str)
  (before after : list str) (paragraph : str) :
  paragraphs text_ = before ++ paragraph :: after ->
  generate_markdown ch_isupper ch_islower ch_istitle
    text_ title page_count pdf_filename processed_date
  = header title page_count pdf_filename processed_date
    ++ concat (map (paragraph_body ch_isupper ch_islower ch_istitle []) before)
    ++ paragraph_body ch_isupper ch_islower ch_istitle [] paragraph
    ++ concat (map (paragraph_body ch_isupper ch_islower ch_istitle []) after).
Proof.
  intros Hps. rewrite generate_markdown_paragraphs, Hps, map_app, concat_app.
  reflexivity.
Qed.

(** C6: in the markdown of a text, a paragraph of the text that is one
    line, shorter than 100 characters, and upper-case ([isupper]) or
    ending with a colon or with a full stop, stands as a level-2 heading
    when it is shorter than 50 characters and as a level-3 heading
    otherwise; any other paragraph of one line stands as it is, followed
    by a blank line; in each case after the header and what the
    paragraphs before it were rendered as, and before the rendering of
    those after it. *)
Theorem single_line_paragraph_rendering
  (text_ title : str) (page_count : Z) (pdf_filename processed_date : str)
  (before after : list str) (paragraph : str) :
  paragraphs text_ = before ++ paragraph :: after ->
  len (split paragraph [nl]) = 1 ->
  let heading_like :=
    len paragraph < 100 /\
    (isupper ch_isupper ch_islower ch_istitle paragraph = true
     \/ endswith paragraph [colon] = true
     \/ endswith paragraph [dot] = true) in
  let rendered_as (block : str) :=
    generate_markdown ch_isupper ch_islower ch_istitle
      text_ title page_count pdf_filename processed_date
    = header title page_count pdf_filename processed_date
      ++ concat (map (paragraph_body ch_isupper ch_islower ch_istitle []) before)
      ++ block
      ++ concat (map (paragraph_body ch_isupper ch_islower ch_istitle []) after) in
  (heading_like -> len paragraph < 50 ->
     rendered_as (lit "## " ++ paragraph ++ [nl; nl])) /\
  (heading_like -> 50 <= len paragraph ->
     rendered_as (lit "### " ++ paragraph ++ [nl; nl])) /\
  (~ heading_like -> rendered_as (paragraph ++ [nl; nl])).
Proof.
  intros Hps Hone heading_like rendered_as. subst heading_like rendered_as. cbv beta.
  rewrite (generate_markdown_at _ _ _ _ _ _ _ _ Hps).
  destruct (paragraph_body_single_line ch_isupper ch_islower ch_istitle [] paragraph Hone)
    as (H2 & H3 & Hplain).
  cbn [app] in H2, H3, Hplain.
  split; [ | split ].
  - intros Hh H50. now rewrite (H2 Hh H50).
  - intros Hh H50. now rewrite (H3 Hh H50).
  - intros Hn. now rewrite (Hplain Hn).
Qed.

(** C7: in the markdown of a text, a paragraph of the text of several
    lines one of which, stripped, starts with the bullet character, a
    hyphen, an asterisk, [1.] or [2.] stands line by line, each line as
    it is and on a line of its own, followed by one blank line; a
    paragraph of several lines with no such line stands as its lines
    joined with single spaces, followed by a blank line. A line that
    starts with another number, as [3.], is no list line: the text of the
    two lines [3. third] and [4. fourth] is rendered as one line. *)
Theorem multi_line_paragraph_rendering
  (text_ title : str) (page_count : Z) (pdf_filename processed_date : str)
  (before after : list str) (paragraph : str) :
  paragraphs text_ = before ++ paragraph :: after ->
  len (split paragraph [nl]) <> 1 ->
  let lines := split paragraph [nl] in
  let rendered_as (block : str) :=
    generate_markdown ch_isupper ch_islower ch_istitle
      text_ title page_count pdf_filename processed_date
    = header title page_count pdf_filename processed_date
      ++ concat (map (paragraph_body ch_isupper ch_islower ch_istitle []) before)
      ++ block
      ++ concat (map (paragraph_body ch_isupper ch_islower ch_istitle []) after) in
  ((exists line, In line lines /\ is_list_line line) ->
     rendered_as (concat (map (fun line => line ++ [nl]) lines) ++ [nl])) /\
  (~ (exists line, In line lines /\ is_list_line line) ->
     rendered_as (join [space] lines ++ [nl; nl])) /\
  ~ is_list_line (lit "3. third") /\
  generate_markdown ch_isupper ch_islower ch_istitle
    (lit "3. third" ++ [nl] ++ lit "4. fourth") title page_count pdf_filename processed_date
  = header title page_count pdf_filename processed_date
    ++ lit "3. third 4. fourth" ++ [nl; nl].
Proof.
  intros Hps Hmany lines rendered_as. subst lines rendered_as. cbv beta.
  rewrite (generate_markdown_at _ _ _ _ _ _ _ _ Hps).
  destruct (paragraph_body_multi_line ch_isupper ch_islower ch_istitle [] paragraph Hmany)
    as (Hlist & Hflow & Hthree & Hrun).
  cbn [app] in Hlist, Hflow.
  split; [ | split; [ | split ] ].
  - intros Hl. now rewrite (Hlist Hl).
  - intros Hn. now rewrite (Hflow Hn).
  - exact Hthree.
  - rewrite generate_markdown_paragraphs.
    change (paragraphs (lit "3. third" ++ [nl] ++ lit "4. fourth"))
      with [lit "3. third" ++ [nl] ++ lit "4. fourth"].
    cbn [map concat]. rewrite Hrun, app_nil_r. reflexivity.
Qed.

End GenerateMarkdownOnTexts.

Lemma single_line_paragraph_rendering_witness :
  paragraphs two_paragraphs = [] ++ introduction :: [two_items]
  /\ len (split introduction [nl]) = 1
  /\ generate_markdown ascii_isupper ascii_islower ascii_istitle
       two_paragraphs (lit "Title") 3 (lit "f.pdf") (lit "2024-01-01 00:00:00")
     = header (lit "Title") 3 (lit "f.pdf") (lit "2024-01-01 00:00:00")
       ++ concat (map (paragraph_body ascii_isupper ascii_islower ascii_istitle []) [])
       ++ (lit "## " ++ introduction ++ [nl; nl])
       ++ concat (map (paragraph_body ascii_isupper ascii_islower ascii_istitle [])
                    [two_items]).
Proof.
  assert (Hps : paragraphs two_paragraphs = [] ++ introduction :: [two_items])
    by reflexivity.
  assert (Hone : len (split introduction [nl]) = 1) by reflexivity.
  split; [ exact Hps | split; [ exact Hone | ] ].
  apply (single_line_paragraph_rendering ascii_isupper ascii_islower ascii_istitle
           two_paragraphs (lit "Title") 3 (lit "f.pdf") (lit "2024-01-01 00:00:00")
           [] [two_items] introduction Hps Hone);
    [ split; [ reflexivity | left; reflexivity ] | reflexivity ].
Defined.

Lemma multi_line_paragraph_rendering_witness :
  paragraphs two_paragraphs = [introduction] ++ two_items :: []
  /\ len (split two_items [nl]) <> 1
  /\ generate_markdown ascii_isupper ascii_islower ascii_istitle
       two_paragraphs (lit "Title") 3 (lit "f.pdf") (lit "2024-01-01 00:00:00")
     = header (lit "Title") 3 (lit "f.pdf") (lit "2024-01-01 00:00:00")
       ++ concat (map (paragraph_body ascii_isupper ascii_islower ascii_istitle [])
                    [introduction])
       ++ (concat (map (fun line => line ++ [nl]) (split two_items [nl])) ++ [nl])
       ++ concat (map (paragraph_body ascii_isupper ascii_islower ascii_istitle []) []).
Proof.
  assert (Hps : paragraphs two_paragraphs = [introduction] ++ two_items :: [])
    by reflexivity.
  assert (Hmany : len (split two_items [nl]) <> 1) by discriminate.
  split; [ exact Hps | split; [ exact Hmany | ] ].
  apply (multi_line_paragraph_rendering ascii_isupper ascii_islower ascii_istitle
           two_paragraphs (lit "Title") 3 (lit "f.pdf") (lit "2024-01-01 00:00:00")
           [introduction] [] two_items Hps Hmany).
  exists (lit "- item one"). split; [ left; reflexivity | right; left; reflexivity ].
Defined.

(** ** The collection builder on the chunk files given *)

Section PrepareOnTheFilesGiven.

Variable entropy : Type.
Variable uuid4 : entropy -> str * entropy.

(** C4: the builder groups the chunks of the chunk files given, those of
    the files that load taken file after file, by the [source] of each
    chunk, and writes one document per distinct source, in the order in
    which the sources are first seen; the document of a source holds one
    content chunk per chunk of that source, in input order and with the
    text of the chunk as content; the content chunk at position [k] has
    [chunk_index] [k] and as [total_chunks] the number of content chunks
    of its document. The [chunk_index] and [total_chunks] stored on the
    input chunks have no effect on the result. *)
Theorem assembler_groups_by_source
  (chunk_files : list (option (list Chunk))) (collection_name : str) (st : entropy) :
  let all_chunks := chunks_given chunk_files in
  exists written st',
    prepare_openwebui_collection entropy uuid4 chunk_files collection_name st
    = (written, st') /\
    (all_chunks <> [] ->
       exists docs, written = Some {| name := collection_name; documents := docs |}) /\
    map Document.title (documents_written written)
    = distinct_sources (map source_of all_chunks) /\
    NoDup (map Document.title (documents_written written)) /\
    (forall s, In s (map Document.title (documents_written written))
               <-> exists c, In c all_chunks /\ source (metadata c) = s) /\
    (forall d, In d (documents_written written) ->
       map ContentChunk.content (Document.content_chunks d)
       = map text (chunks_of_source (Document.title d) all_chunks) /\
       forall k cc, nth_error (Document.content_chunks d) k = Some cc ->
         ContentChunk.metadata cc
         = {| source := Document.title d;
              chunk_index := Z.of_nat k;
              total_chunks := len (Document.content_chunks d) |}) /\
    (forall chunk_files',
       map (option_map (map blank_counts)) chunk_files'
       = map (option_map (map blank_counts)) chunk_files ->
       prepare_openwebui_collection entropy uuid4 chunk_files' collection_name st
       = (written, st')).
Proof.
  pose proof (assembler_groups_all_chunks entropy uuid4 chunk_files collection_name st) as H.
  cbv zeta in H. rewrite load_all_spec in H. exact H.
Qed.

End PrepareOnTheFilesGiven.
